(** * The TOTP device protocol client (src/lib/totp-client/totp-client.ts)

    A shallow embedding of [TotpAppClient]: device discovery, the session
    manager ([#getSerialPort], [close]) and the command executor
    ([#executeCommand]) with its text sanitisation.

    Conventions.
    - A JavaScript string is a [string]: a sequence of code units below 256
      (the device speaks ASCII over the serial line).
    - Asynchronous code is written in a state-and-error monad; every
      [await] is a bind.  The retry-forever loops take a fuel argument.
    - Every externally visible step (event emitted, serial primitive called,
      delay awaited) is appended to a chronological trace. *)

From Stdlib Require Import Bool Arith List ZArith Lia Ascii String.
Import ListNotations.

Local Open Scope string_scope.
Local Open Scope list_scope.

(** ** JavaScript string primitives *)

Module Js.

(** [s.slice(n)] *)
Fixpoint drop (n : nat) (s : string) : string :=
  match n, s with
  | S n', String _ s' => drop n' s'
  | _, _ => s
  end.

(** [s.slice(0, n)] *)
Fixpoint take (n : nat) (s : string) : string :=
  match n, s with
  | S n', String c s' => String c (take n' s')
  | _, _ => EmptyString
  end.

(** [s.startsWith(m)] *)
Fixpoint startsWith (m s : string) : bool :=
  match m, s with
  | EmptyString, _ => true
  | String a m', String b s' => Ascii.eqb a b && startsWith m' s'
  | String _ _, EmptyString => false
  end.

(** [s.includes(m)] *)
Fixpoint includes (m s : string) : bool :=
  if startsWith m s then true
  else match s with
       | EmptyString => false
       | String _ s' => includes m s'
       end.

(** [s.indexOf(m)], with [None] for -1 *)
Fixpoint indexOf (m s : string) : option nat :=
  if startsWith m s then Some 0
  else match s with
       | EmptyString => None
       | String _ s' => option_map S (indexOf m s')
       end.

(** [s.replace(m, '')] for a string pattern [m]: only the first
    occurrence is replaced. *)
Fixpoint replace_first (m s : string) : string :=
  if startsWith m s then drop (String.length m) s
  else match s with
       | EmptyString => EmptyString
       | String c s' => String c (replace_first m s')
       end.

(** Truthiness of a [string | null | undefined] value. *)
Definition truthy (r : option string) : bool :=
  match r with
  | Some (String _ _) => true
  | _ => false
  end.

(** [r.includes(m)] on a value already known to be a string; on an
    absent value the callers never reach the call. *)
Definition has (m : string) (r : option string) : bool :=
  match r with
  | Some s => includes m s
  | None => false
  end.

End Js.

(** ** Regular expressions

    A backtracking matcher with the semantics of ECMAScript for the
    constructs the client uses: literal characters, [\d], [\s], [^], [$],
    [\b], sequence, alternation, greedy [*] and [?], groups; flags [g], [i]
    and [m]. *)

Module Regex.

Inductive regex : Type :=
| Eps
| Chr (c : ascii)
| Digit
| Space
| Bol
| Eol
| WordB
| Seq (r1 r2 : regex)
| Alt (r1 r2 : regex)
| Star (r : regex)
| Opt (r : regex)
| Group (r : regex).

(** [r+] is [r] followed by [r*]. *)
Definition Plus (r : regex) : regex := Seq r (Star r).

(** The pattern matching exactly the text [s]: what
    [escapeStringRegexp(s)] denotes once compiled. *)
Fixpoint lit (s : string) : regex :=
  match s with
  | EmptyString => Eps
  | String c s' => Seq (Chr c) (lit s')
  end.

Record flags : Type := Flags {
  global : bool;
  ignoreCase : bool;
  multiline : bool
}.

(** A position in the input: the code unit before it and the text after. *)
Record cursor : Type := Cursor {
  prev : option ascii;
  rest : string
}.

Definition start (s : string) : cursor := Cursor None s.

Definition code (c : ascii) : nat := nat_of_ascii c.

Definition between (lo hi n : nat) : bool :=
  Nat.leb lo n && Nat.leb n hi.

Definition is_digit (c : ascii) : bool := between 48 57 (code c).

(** WhiteSpace and LineTerminator code units below 256. *)
Definition is_space (c : ascii) : bool :=
  let n := code c in between 9 13 n || Nat.eqb n 32 || Nat.eqb n 160.

Definition is_line_terminator (c : ascii) : bool :=
  let n := code c in Nat.eqb n 10 || Nat.eqb n 13.

Definition is_word (c : ascii) : bool :=
  let n := code c in
  between 48 57 n || between 65 90 n || between 97 122 n
  || Nat.eqb n 95.

(** Canonicalize of the specification, on code units below 256: the
    simple upper-case mapping when it is a single code unit. *)
Definition canonicalize (c : ascii) : nat :=
  let n := code c in
  if between 97 122 n then n - 32
  else if between 224 254 n && negb (Nat.eqb n 247) then n - 32
  else if Nat.eqb n 181 then 924
  else if Nat.eqb n 255 then 376
  else n.

Definition char_eq (f : flags) (a b : ascii) : bool :=
  if ignoreCase f then Nat.eqb (canonicalize a) (canonicalize b)
  else Nat.eqb (code a) (code b).

Definition at_bol (f : flags) (c : cursor) : bool :=
  match prev c with
  | None => true
  | Some p => multiline f && is_line_terminator p
  end.

Definition at_eol (f : flags) (c : cursor) : bool :=
  match rest c with
  | EmptyString => true
  | String n _ => multiline f && is_line_terminator n
  end.

Definition word_before (c : cursor) : bool :=
  match prev c with Some p => is_word p | None => false end.

Definition word_after (c : cursor) : bool :=
  match rest c with String n _ => is_word n | EmptyString => false end.

Definition at_word_boundary (c : cursor) : bool :=
  xorb (word_before c) (word_after c).

Definition remaining (c : cursor) : nat := String.length (rest c).

(** One code unit satisfying [p]. *)
Definition step (p : ascii -> bool) (c : cursor)
           (k : cursor -> option cursor) : option cursor :=
  match rest c with
  | String b s => if p b then k (Cursor (Some b) s) else None
  | EmptyString => None
  end.

(** The matcher, in continuation-passing style as in the specification:
    the first successful path in priority order wins. *)
Fixpoint rmatch (f : flags) (r : regex) (c : cursor)
         (k : cursor -> option cursor) {struct r} : option cursor :=
  match r with
  | Eps => k c
  | Chr a => step (char_eq f a) c k
  | Digit => step is_digit c k
  | Space => step is_space c k
  | Bol => if at_bol f c then k c else None
  | Eol => if at_eol f c then k c else None
  | WordB => if at_word_boundary c then k c else None
  | Seq r1 r2 => rmatch f r1 c (fun c1 => rmatch f r2 c1 k)
  | Alt r1 r2 =>
      match rmatch f r1 c k with
      | Some e => Some e
      | None => rmatch f r2 c k
      end
  | Star r1 =>
      (fix loop (n : nat) (c0 : cursor) {struct n} : option cursor :=
         match rmatch f r1 c0
                 (fun c1 =>
                    if Nat.ltb (remaining c1) (remaining c0)
                    then match n with
                         | O => None
                         | S n' => loop n' c1
                         end
                    else None)
         with
         | Some e => Some e
         | None => k c0
         end) (remaining c) c
  | Opt r1 =>
      match rmatch f r1 c
              (fun c1 =>
                 if Nat.ltb (remaining c1) (remaining c) then k c1 else None)
      with
      | Some e => Some e
      | None => k c
      end
  | Group r1 => rmatch f r1 c k
  end.

(** A match attempt anchored at [c]; the result is the end position. *)
Definition exec_at (f : flags) (r : regex) (c : cursor) : option cursor :=
  rmatch f r c (fun e => Some e).

(** [RegExpBuiltinExec] from position [c]: the leftmost position at which
    an attempt succeeds.  The result is the text skipped before the match
    and the end of the match. *)
Fixpoint search_from (fuel : nat) (f : flags) (r : regex) (c : cursor)
  : option (string * cursor) :=
  match exec_at f r c with
  | Some e => Some (EmptyString, e)
  | None =>
      match fuel, rest c with
      | S fuel', String b s =>
          match search_from fuel' f r (Cursor (Some b) s) with
          | Some (skipped, e) => Some (String b skipped, e)
          | None => None
          end
      | _, _ => None
      end
  end.

Definition search (f : flags) (r : regex) (s : string)
  : option (string * cursor) :=
  search_from (String.length s) f r (start s).

(** [s.replace(re, '')] for a global [re]: every match is removed; after
    an empty match the search resumes one code unit further. *)
Fixpoint remove_all_from (fuel : nat) (f : flags) (r : regex) (c : cursor)
  : string :=
  match fuel with
  | O => EmptyString
  | S fuel' =>
      match exec_at f r c with
      | Some e =>
          if Nat.ltb (remaining e) (remaining c)
          then remove_all_from fuel' f r e
          else match rest c with
               | String b s =>
                   String b (remove_all_from fuel' f r (Cursor (Some b) s))
               | EmptyString => EmptyString
               end
      | None =>
          match rest c with
          | String b s =>
              String b (remove_all_from fuel' f r (Cursor (Some b) s))
          | EmptyString => EmptyString
          end
      end
  end.

(** [s.replace(re, '')] *)
Definition replace (f : flags) (r : regex) (s : string) : string :=
  if global f
  then remove_all_from (S (String.length s)) f r (start s)
  else match search f r s with
       | Some (skipped, e) => skipped ++ rest e
       | None => s
       end.

End Regex.

Import Regex.

Definition esc : ascii := ascii_of_nat 27.
Definition cr : ascii := ascii_of_nat 13.
Definition lf : ascii := ascii_of_nat 10.
Definition crlf : string := String cr (String lf EmptyString).

(** [/(\x1b\[(\d+m|A|2K))|(\b \b)\r?/g] (line 125) *)
Definition terminalControlRegex : regex :=
  Alt (Group (Seq (Chr esc) (Seq (Chr "[")
         (Group (Alt (Seq (Plus Digit) (Chr "m"))
                (Alt (Chr "A") (Seq (Chr "2") (Chr "K"))))))))
      (Seq (Group (Seq WordB (Seq (Chr " ") WordB))) (Opt (Chr cr))).

(** [/^\s*\r?\n?$/gm] (line 129) *)
Definition emptyLinesRegex : regex :=
  Seq Bol (Seq (Star Space) (Seq (Opt (Chr cr)) (Seq (Opt (Chr lf)) Eol))).

Definition flags_g : flags := Flags true false false.
Definition flags_gm : flags := Flags true false true.
Definition flags_gi : flags := Flags true true false.

(** [string | RegExp] *)
Inductive pattern : Type :=
| PStr (s : string)
| PRe (r : regex) (f : flags).

(** [s.replace(p, '')] *)
Definition replace_pattern (p : pattern) (s : string) : string :=
  match p with
  | PStr m => Js.replace_first m s
  | PRe r f => Regex.replace f r s
  end.

(** ** Data model *)

(** The protocol constants of [./constants]: literal texts fixed by the
    firmware's CLI contract.  The module is not among the sources, so the
    client is stated over any choice of them.  The event-name constants are
    the constructors of [event] below. *)
Class Constants : Type := {
  TotpCommand : string;
  FlipperCliEndOfCommand : string;
  FlipperVendorId : string;
  FlipperProductId : string;
  TotpAskForPin : string;
  TotpCommandCancelled : string;
  FlipperCliCommandNotFound : string
}.

(** The fields of serialport's [PortInfo] the client looks at. *)
Record PortInfo : Type := {
  path : string;
  vendorId : option string;
  productId : option string
}.

(** A [SerialPort] object: its identity and the options it was built with. *)
Record Port : Type := {
  port_id : nat;
  port_path : string;
  port_baud : Z
}.

Definition same_port (p q : Port) : bool := Nat.eqb (port_id p) (port_id q).

Inductive event : Type :=
| Connecting      (* TotpEventNameConnecting *)
| Connected       (* TotpEventNameConnected *)
| PinRequested    (* TotpEventNamePinRequested *)
| Closed.         (* TotpEventNameClose *)

Inductive error : Type :=
| Timeout
| Failure (msg : string).

(** What the client does to the outside world, in the order it does it. *)
Inductive action : Type :=
| AEmit (e : event)
| AList
| ADelay (ms : Z)
| AOpen (p : Port)
| AClose (p : Port)
| AWrite (p : Port) (data : string)
| ARead (p : Port) (until : pattern) (deadline : option Z)
| AOnClose (p : Port).

Record ExecuteCommandOptions : Type := {
  skipFirstLine : bool;
  trimCommandEndSignature : bool;
  trimEmptyLines : bool;
  trimTerminalControlCommands : bool;
  commandEndSign : pattern
}.

(** [Partial<ExecuteCommandOptions>] *)
Record PartialOptions : Type := {
  skipFirstLine' : option bool;
  trimCommandEndSignature' : option bool;
  trimEmptyLines' : option bool;
  trimTerminalControlCommands' : option bool;
  commandEndSign' : option pattern
}.

Definition no_options : PartialOptions :=
  {| skipFirstLine' := None; trimCommandEndSignature' := None;
     trimEmptyLines' := None; trimTerminalControlCommands' := None;
     commandEndSign' := None |}.

Definition or_default {A : Type} (o : option A) (d : A) : A :=
  match o with Some a => a | None => d end.

(** [Object.assign({}, defaults, options)] *)
Definition assign (d : ExecuteCommandOptions) (o : PartialOptions)
  : ExecuteCommandOptions :=
  {| skipFirstLine := or_default (skipFirstLine' o) (skipFirstLine d);
     trimCommandEndSignature :=
       or_default (trimCommandEndSignature' o) (trimCommandEndSignature d);
     trimEmptyLines := or_default (trimEmptyLines' o) (trimEmptyLines d);
     trimTerminalControlCommands :=
       or_default (trimTerminalControlCommands' o)
                  (trimTerminalControlCommands d);
     commandEndSign := or_default (commandEndSign' o) (commandEndSign d) |}.

(** ** The serial device seen from the client *)

(** Modelled from the spec: the transport and enumeration primitives of
    [serialport], [./serial-port-async] and [./serial-port-extensions] are
    not among the sources.  Section 6 of the specification gives their
    contract: enumeration lists the attached endpoints; open may fail; a
    read returns the text up to a terminator or fails (with a timeout when
    the deadline passes); write, close and delay complete.  What the device
    answers is left to an arbitrary deterministic environment. *)
Class Device : Type := {
  dev : Type;
  dev_list : dev -> list PortInfo * dev;
  dev_open : Port -> dev -> option error * dev;
  dev_read : Port -> pattern -> option Z -> dev
             -> (error + option string) * dev;
  dev_write : Port -> string -> dev -> dev;
  dev_close : Port -> dev -> dev;
  dev_delay : Z -> dev -> dev
}.

(** The outcome of awaiting a promise. *)
Inductive res (A : Type) : Type :=
| Ok (a : A)          (* the promise resolved *)
| Throw (e : error)   (* the promise rejected *)
| OutOfFuel.          (* still looping when the fuel ran out *)
Arguments Ok {A} a.
Arguments Throw {A} e.
Arguments OutOfFuel {A}.

Section Client.

Context {K : Constants} {D : Device}.

(** The client instance together with the world around it. *)
Record State : Type := {
  held : option Port;      (* this.#serialPort *)
  observed : list Port;    (* ports carrying the 'close' listener *)
  live : list Port;        (* transports currently open *)
  peak : nat;              (* most transports ever open at once *)
  next_id : nat;           (* identity of the next SerialPort object *)
  trace : list action;
  world : dev
}.

Definition initial (w : dev) : State :=
  {| held := None; observed := []; live := []; peak := 0; next_id := 0;
     trace := []; world := w |}.

Definition set_held (h : option Port) (s : State) : State :=
  {| held := h; observed := observed s; live := live s; peak := peak s;
     next_id := next_id s; trace := trace s; world := world s |}.

Definition set_observed (o : list Port) (s : State) : State :=
  {| held := held s; observed := o; live := live s; peak := peak s;
     next_id := next_id s; trace := trace s; world := world s |}.

Definition set_live (l : list Port) (s : State) : State :=
  {| held := held s; observed := observed s; live := l;
     peak := Nat.max (peak s) (List.length l);
     next_id := next_id s; trace := trace s; world := world s |}.

Definition set_next_id (n : nat) (s : State) : State :=
  {| held := held s; observed := observed s; live := live s; peak := peak s;
     next_id := n; trace := trace s; world := world s |}.

Definition set_world (w : dev) (s : State) : State :=
  {| held := held s; observed := observed s; live := live s; peak := peak s;
     next_id := next_id s; trace := trace s; world := w |}.

Definition log (a : action) (s : State) : State :=
  {| held := held s; observed := observed s; live := live s; peak := peak s;
     next_id := next_id s; trace := trace s ++ [a]; world := world s |}.

(** *** The monad of asynchronous client code *)

Definition M (A : Type) : Type := State -> res A * State.

Definition ret {A : Type} (a : A) : M A := fun s => (Ok a, s).

Definition out_of_fuel {A : Type} : M A := fun s => (OutOfFuel, s).

Definition bind {A B : Type} (m : M A) (f : A -> M B) : M B :=
  fun s =>
    match m s with
    | (Ok a, s') => f a s'
    | (Throw e, s') => (Throw e, s')
    | (OutOfFuel, s') => (OutOfFuel, s')
    end.

(** [try { m } catch (e) { h e }] *)
Definition try_catch {A : Type} (m : M A) (h : error -> M A) : M A :=
  fun s =>
    match m s with
    | (Throw e, s') => h e s'
    | r => r
    end.

Definition get : M State := fun s => (Ok s, s).

Definition modify (f : State -> State) : M unit := fun s => (Ok tt, f s).

Notation "x <- m ;; k" := (bind m (fun x => k))
  (at level 61, m at next level, right associativity).
Notation "m ;;; k" := (bind m (fun _ => k))
  (at level 61, right associativity).

(** *** Primitives *)

Definition without (p : Port) (l : list Port) : list Port :=
  filter (fun q => negb (same_port p q)) l.

Definition is_observed (p : Port) (s : State) : bool :=
  existsb (same_port p) (observed s).

(** Modelled from the spec: the 'close' event of [serialport].  When the
    channel of [p] closes, on [closeAsync] or because the device went away,
    the port is no longer open and its 'close' listeners run; the one the
    client installs (lines 77-79) clears the held transport. *)
Definition port_closed (p : Port) (s : State) : State :=
  let s' := set_live (without p (live s)) s in
  if is_observed p s' then set_held None s' else s'.

(** [this.emit(name, this)] *)
Definition emit (e : event) : M unit := modify (log (AEmit e)).

(** [delay(ms)], of the [delay] package: resolves after [ms]. *)
Definition delay (ms : Z) : M unit :=
  modify (fun s => set_world (dev_delay ms (world s)) (log (ADelay ms) s)).

(** Modelled from the spec: [SerialPort.list()], the enumeration of the
    serial endpoints visible at the time of the call. *)
Definition list_ports : M (list PortInfo) :=
  fun s =>
    let (l, w) := dev_list (world s) in
    (Ok l, set_world w (log AList s)).

(** [new SerialPort({ path, baudRate, autoOpen: false })] *)
Definition new_SerialPort (pth : string) (baud : Z) : M Port :=
  fun s =>
    (Ok {| port_id := next_id s; port_path := pth; port_baud := baud |},
     set_next_id (S (next_id s)) s).

(** Modelled from the spec: [openAsync(p)] of [./serial-port-async]; the
    port is open once it resolves, and it may reject. *)
Definition openAsync (p : Port) : M unit :=
  fun s =>
    let s1 := log (AOpen p) s in
    match dev_open p (world s1) with
    | (None, w) => (Ok tt, set_live (p :: live s1) (set_world w s1))
    | (Some e, w) => (Throw e, set_world w s1)
    end.

(** Modelled from the spec: [closeAsync(p)] of [./serial-port-async]; it
    resolves once the port is closed, which makes the port report its
    closure. *)
Definition closeAsync (p : Port) : M unit :=
  modify (fun s =>
    port_closed p (set_world (dev_close p (world s)) (log (AClose p) s))).

(** Modelled from the spec: [readUntil(p, until, deadline)] of
    [./serial-port-extensions]; it resolves to the text read up to the
    terminator, or rejects. *)
Definition readUntil (p : Port) (until : pattern) (deadline : option Z)
  : M (option string) :=
  fun s =>
    let s1 := log (ARead p until deadline) s in
    match dev_read p until deadline (world s1) with
    | (inr r, w) => (Ok r, set_world w s1)
    | (inl e, w) => (Throw e, set_world w s1)
    end.

(** Modelled from the spec: [writeAndDrain(p, data)] of
    [./serial-port-extensions]; it resolves once the data are flushed. *)
Definition writeAndDrain (p : Port) (data : string) : M unit :=
  modify (fun s =>
    set_world (dev_write p data (world s)) (log (AWrite p data) s)).

(** [p.on('close', () => { this.#serialPort = null })] *)
Definition on_close (p : Port) : M unit :=
  modify (fun s => set_observed (p :: observed s) (log (AOnClose p) s)).

(** *** Device locator (lines 13-25) *)

(** [a == b] for [a : string | undefined] and a string constant [b] *)
Definition loose_eq (a : option string) (b : string) : bool :=
  match a with
  | Some x => String.eqb x b
  | None => false
  end.

Definition is_flipper (p : PortInfo) : bool :=
  loose_eq (vendorId p) FlipperVendorId
  && loose_eq (productId p) FlipperProductId.

Definition findDevice (serialDevices : list PortInfo) : option PortInfo :=
  find is_flipper serialDevices.

Definition getFlipperZeroDevice : M (option PortInfo) :=
  serialDevices <- list_ports ;;
  ret (findDevice serialDevices).

Fixpoint waitForFlipperZeroDevice (fuel : nat) : M PortInfo :=
  match fuel with
  | O => out_of_fuel
  | S n =>
      flipperZeroDevice <- getFlipperZeroDevice ;;
      match flipperZeroDevice with
      | Some d => ret d
      | None => delay 1000 ;;; waitForFlipperZeroDevice n
      end
  end.

(** *** Session manager (lines 50-85, 151-157) *)

(** Lines 56-74: discovery, open and readiness probe; the result is the
    final value of the local [serialPort]. *)
Definition discover_open_probe (fuel : nat) : M (option Port) :=
  flipperZeroDevice <- waitForFlipperZeroDevice fuel ;;
  created <- new_SerialPort (path flipperZeroDevice) 115200 ;;
  serialPort <- try_catch (openAsync created ;;; ret (Some created))
                          (fun _ => delay 1000 ;;; ret None) ;;
  match serialPort with
  | Some p =>
      try_catch (readUntil p (PStr FlipperCliEndOfCommand) (Some 1000%Z) ;;;
                 ret (Some p))
                (fun _ => closeAsync p ;;; delay 1000 ;;; ret None)
  | None => ret None
  end.

(** One pass through the body of the [do ... while (serialPort == null)]
    loop (lines 55-74). *)
Definition connect_once (fuel : nat) : M (option Port) :=
  emit Connecting ;;;
  discover_open_probe fuel.

(** Lines 54-75: the loop, left with the transport that passed the probe. *)
Fixpoint connect_loop (fuel : nat) : M Port :=
  match fuel with
  | O => out_of_fuel
  | S n =>
      serialPort <- connect_once n ;;
      match serialPort with
      | Some p => ret p
      | None => connect_loop n
      end
  end.

(** Lines 50-85.  [return this.#serialPort] returns the transport just
    stored, or the one already held. *)
Definition getSerialPort (fuel : nat) : M Port :=
  s <- get ;;
  match held s with
  | None =>
      serialPort <- connect_loop fuel ;;
      on_close serialPort ;;;
      modify (set_held (Some serialPort)) ;;;
      emit Connected ;;;
      ret serialPort
  | Some p => ret p
  end.

(** Lines 151-157 *)
Definition close : M unit :=
  s <- get ;;
  match held s with
  | Some p => closeAsync p
  | None => ret tt
  end ;;;
  emit Closed.

(** *** Command executor (lines 87-134) *)

Definition executeCommandDefaultOptions : ExecuteCommandOptions :=
  {| skipFirstLine := true;
     trimCommandEndSignature := true;
     trimEmptyLines := true;
     trimTerminalControlCommands := true;
     commandEndSign := PStr FlipperCliEndOfCommand |}.

(** Lines 91-96: the source of a pattern, or the escaped text. *)
Definition commandEndSignForRegex (p : pattern) : regex :=
  match p with
  | PRe r _ => r
  | PStr s => lit s
  end.

(** Line 97 *)
Definition commandEndOutputSignRegex (opts : ExecuteCommandOptions)
  : pattern :=
  PRe (Alt (Group (commandEndSignForRegex (commandEndSign opts)))
      (Alt (Group (lit TotpAskForPin))
           (Group (lit TotpCommandCancelled))))
      flags_gi.

(** Line 106 *)
Definition commandFound (response : option string) : bool :=
  Js.truthy response && negb (Js.has FlipperCliCommandNotFound response).

(** Lines 99-114: one pass through the body of the
    [do ... while (!commandFound)] loop. *)
Definition attempt (fuel : nat) (command : string)
           (opts : ExecuteCommandOptions)
  : M (bool * option string) :=
  p <- getSerialPort fuel ;;
  writeAndDrain p command ;;;
  (if skipFirstLine opts
   then p <- getSerialPort fuel ;;
        readUntil p (PStr crlf) (Some 1000%Z) ;;; ret tt
   else ret tt) ;;;
  p <- getSerialPort fuel ;;
  response <- readUntil p (commandEndOutputSignRegex opts) (Some 5000%Z) ;;
  if commandFound response
  then if Js.has TotpAskForPin response
       then emit PinRequested ;;;
            p <- getSerialPort fuel ;;
            response <- readUntil p (commandEndOutputSignRegex opts) None ;;
            ret (true, response)
       else ret (true, response)
  else delay 1000 ;;; ret (false, response).

(** The loop: the response with which it is left. *)
Fixpoint collect (fuel : nat) (command : string)
         (opts : ExecuteCommandOptions) : M (option string) :=
  match fuel with
  | O => out_of_fuel
  | S n =>
      r <- attempt n command opts ;;
      if fst r then ret (snd r) else collect n command opts
  end.

(** Lines 120-122 *)
Definition trimEndSignature (opts : ExecuteCommandOptions)
           (response : string) : string :=
  if trimCommandEndSignature opts
  then replace_pattern (commandEndSign opts) response
  else response.

(** Lines 124-126 *)
Definition trimTerminalControl (opts : ExecuteCommandOptions)
           (response : string) : string :=
  if trimTerminalControlCommands opts
  then Regex.replace flags_g terminalControlRegex response
  else response.

(** Lines 128-130 *)
Definition trimEmpty (opts : ExecuteCommandOptions)
           (response : string) : string :=
  if trimEmptyLines opts
  then Regex.replace flags_gm emptyLinesRegex response
  else response.

(** Lines 120-130 *)
Definition sanitize (opts : ExecuteCommandOptions) (response : string)
  : string :=
  trimEmpty opts (trimTerminalControl opts (trimEndSignature opts response)).

(** Lines 117-131; [None] is [null]. *)
Definition postProcess (opts : ExecuteCommandOptions)
           (response : option string) : option string :=
  match response with
  | Some r =>
      if negb (Js.truthy response) || Js.includes TotpCommandCancelled r
      then None
      else Some (sanitize opts r)
  | None => None
  end.

Definition executeCommand (fuel : nat) (command : string)
           (options : PartialOptions) : M (option string) :=
  let opts := assign executeCommandDefaultOptions options in
  response <- collect fuel command opts ;;
  ret (postProcess opts response).

Definition waitForApp (fuel : nat) : M unit :=
  executeCommand fuel (TotpCommand ++ " ?" ++ String cr "") no_options ;;;
  ret tt.

Definition waitForDevice (fuel : nat) : M unit :=
  s <- get ;;
  match held s with
  | None => getSerialPort fuel ;;; ret tt
  | Some _ => ret tt
  end.

(** *** Sequences of operations on one client *)

(** What can happen to a client, one thing after the other.  [listTokens]
    is an [Execute] of the listing command followed by the parsing of its
    result. *)
Inductive operation : Type :=
| GetTransport
| Execute (command : string) (options : PartialOptions)
| WaitForApp
| WaitForDevice
| Close
| ChannelClosed (p : Port).   (* the channel of an open port goes away *)

(** The state after operation [o]. *)
Definition perform (fuel : nat) (o : operation) (s : State) : State :=
  match o with
  | GetTransport => snd (getSerialPort fuel s)
  | Execute c opts => snd (executeCommand fuel c opts s)
  | WaitForApp => snd (waitForApp fuel s)
  | WaitForDevice => snd (waitForDevice fuel s)
  | Close => snd (close s)
  | ChannelClosed p =>
      if existsb (same_port p) (live s) then port_closed p s else s
  end.

(** The state after the operations [ops], in order. *)
Definition run (fuel : nat) (ops : list operation) (s : State) : State :=
  fold_left (fun st o => perform fuel o st) ops s.

End Client.

Notation "x <- m ;; k" := (bind m (fun x => k))
  (at level 61, m at next level, right associativity).
Notation "m ;;; k" := (bind m (fun _ => k))
  (at level 61, right associativity).

(** ** A simulated transport

    A device driven by a script: what enumeration shows at each poll,
    whether each open succeeds, and what the device sends back after each
    command written to it.  A read returns the pending input up to the end
    of the first match of its terminator and leaves the remainder pending;
    with no match it fails with a timeout. *)

Module Sim.

Local Open Scope string_scope.

Record device : Type := {
  enumerations : list (list PortInfo);
  opens : list bool;
  pending : string;
  replies : list string
}.

Definition enumerate (d : device) : list PortInfo * device :=
  match enumerations d with
  | [] => ([], d)
  | [l] => (l, d)
  | l :: rest =>
      (l, {| enumerations := rest; opens := opens d;
             pending := pending d; replies := replies d |})
  end.

Definition open_port (_ : Port) (d : device) : option error * device :=
  match opens d with
  | [] => (None, d)
  | ok :: rest =>
      (if ok then None else Some (Failure "cannot open"),
       {| enumerations := enumerations d; opens := rest;
          pending := pending d; replies := replies d |})
  end.

(** Modelled from the spec: what a read until [until] takes from the
    pending input [s], namely the text up to the end of the first match,
    leaving the remainder. *)
Definition split_match (until : pattern) (s : string)
  : option (string * string) :=
  match until with
  | PStr m =>
      match Js.indexOf m s with
      | Some i =>
          let n := i + String.length m in Some (Js.take n s, Js.drop n s)
      | None => None
      end
  | PRe r f =>
      match Regex.search f r s with
      | Some (_, e) =>
          Some (Js.take (String.length s - Regex.remaining e) s,
                Regex.rest e)
      | None => None
      end
  end.

Definition read_until (_ : Port) (until : pattern) (_ : option Z) (d : device)
  : (error + option string) * device :=
  match split_match until (pending d) with
  | Some (text, remainder) =>
      (inr (Some text),
       {| enumerations := enumerations d; opens := opens d;
          pending := remainder; replies := replies d |})
  | None => (inl Timeout, d)
  end.

Definition write_drain (_ : Port) (_ : string) (d : device) : device :=
  match replies d with
  | [] => d
  | r :: rest =>
      {| enumerations := enumerations d; opens := opens d;
         pending := pending d ++ r; replies := rest |}
  end.

#[export] Instance simulated : Device := {|
  dev := device;
  dev_list := enumerate;
  dev_open := open_port;
  dev_read := read_until;
  dev_write := write_drain;
  dev_close := fun _ d => d;
  dev_delay := fun _ d => d
|}.

(** Modelled from the spec: [./constants] is not among the sources.  The
    end-of-command marker is the one of the specification's example; the
    other texts stand for the firmware's. *)
#[export] Instance constants : Constants := {|
  TotpCommand := "totp";
  FlipperCliEndOfCommand := ">>> ";
  FlipperVendorId := "0483";
  FlipperProductId := "5740";
  TotpAskForPin := "Pleases enter PIN on your flipper device";
  TotpCommandCancelled := "Cancelled by user";
  FlipperCliCommandNotFound := "command not found"
|}.

Definition flipper : PortInfo :=
  {| path := "/dev/ttyACM0"; vendorId := Some "0483";
     productId := Some "5740" |}.

Definition other : PortInfo :=
  {| path := "/dev/ttyUSB0"; vendorId := Some "10c4";
     productId := Some "ea60" |}.

Definition second_flipper : PortInfo :=
  {| path := "/dev/ttyACM1"; vendorId := Some "0483";
     productId := Some "5740" |}.

Definition unnamed : PortInfo :=
  {| path := "/dev/ttyS0"; vendorId := None; productId := None |}.

Definition port0 : Port :=
  {| port_id := 0; port_path := "/dev/ttyACM0"; port_baud := 115200 |}.

Definition port1 : Port :=
  {| port_id := 1; port_path := "/dev/ttyACM0"; port_baud := 115200 |}.

(** A client that already holds [port0]. *)
Definition connected (d : device) : State :=
  {| held := Some port0; observed := [port0]; live := [port0];
     peak := 1; next_id := 1; trace := []; world := d |}.

(** A plugged-in device whose shell prompt is pending and which answers
    the commands written to it with [rs]. *)
Definition plugged (os : list bool) (rs : list string) : device :=
  {| enumerations := [[other; flipper]]; opens := os;
     pending := ">>> "; replies := rs |}.

Definition answering (rs : list string) : device :=
  {| enumerations := [[other; flipper]]; opens := [];
     pending := ""; replies := rs |}.

(** The example of the specification's round-trip property: what the
    device sends for a command, and the result the specification gives. *)
Definition example_command : string := "cmd" ++ String cr "".

Definition example_input : string :=
  "cmd" ++ crlf ++ "line1" ++ crlf ++ crlf ++ "line2" ++ crlf ++ ">>> ".



Definition example_result : string :=
  "line1" ++ crlf ++ "line2" ++ String cr "".

(** Other things the device may send for a command. *)
Definition not_found_reply : string :=
  "cmd" ++ crlf ++ "cmd: command not found" ++ crlf ++ ">>> ".

Definition cancelled_reply : string :=
  "cmd" ++ crlf ++ "Cancelled by user" ++ crlf ++ ">>> ".

Definition unfinished_reply : string :=
  "cmd" ++ crlf ++ "line1" ++ crlf.

Definition prompt : string := "Pleases enter PIN on your flipper device".

Definition one_prompt_reply : string :=
  "cmd" ++ crlf ++ prompt ++ crlf ++ "line1" ++ crlf ++ ">>> ".

Definition two_prompts_reply : string :=
  "cmd" ++ crlf ++ prompt ++ crlf ++ prompt ++ crlf
  ++ "line1" ++ crlf ++ ">>> ".

(** The defaults, but with terminal control sequences left in. *)
Definition keep_control : PartialOptions :=
  {| skipFirstLine' := None; trimCommandEndSignature' := None;
     trimEmptyLines' := None; trimTerminalControlCommands' := Some false;
     commandEndSign' := None |}.

End Sim.

(** ** Vocabulary of the statements *)

Section Vocabulary.

Context {K : Constants} {D : Device}.

(** The state [s] once the client has performed [tr] and the device has
    moved to [w]; the session itself is untouched. *)
Definition leave (s : State) (tr : list action) (w : dev) : State :=
  {| held := held s; observed := observed s; live := live s;
     peak := peak s; next_id := next_id s;
     trace := trace s ++ tr; world := w |}.

Definition is_emit (e : event) (a : action) : bool :=
  match a, e with
  | AEmit Connecting, Connecting => true
  | AEmit Connected, Connected => true
  | AEmit PinRequested, PinRequested => true
  | AEmit Closed, Closed => true
  | _, _ => false
  end.

Definition is_write (a : action) : bool :=
  match a with AWrite _ _ => true | _ => false end.

Definition is_delay (a : action) : bool :=
  match a with ADelay _ => true | _ => false end.

Definition count (p : action -> bool) (tr : list action) : nat :=
  List.length (filter p tr).

(** The endpoint carries the identifiers of the target hardware. *)
Definition matches_constants (p : PortInfo) : Prop :=
  vendorId p = Some FlipperVendorId /\ productId p = Some FlipperProductId.

(** A text no proper suffix of which starts the text again: two of its
    occurrences cannot overlap. *)
Definition unbordered (m : string) : Prop :=
  forall j, 0 < j < String.length m ->
            Js.startsWith (Js.drop j m) m = false.

(** *** Shape of the connection sequence *)

(** [k] unsuccessful polls of the enumeration, one second apart. *)
Fixpoint polls (k : nat) : list action :=
  match k with
  | O => []
  | S k' => AList :: ADelay 1000 :: polls k'
  end.

(** The probe for the shell prompt. *)
Definition probe (p : Port) : action :=
  ARead p (PStr FlipperCliEndOfCommand) (Some 1000%Z).

(** A port at the fixed baud rate.  Which endpoint it is for cannot be
    read off a trace; [port_for] below says it. *)
Definition for_target (p : Port) : Prop :=
  port_baud p = 115200%Z.

(** A pass that ends in a retry: the open fails, or the probe does and
    the transport is closed again; either way one second is waited. *)
Definition failed_pass (t : list action) : Prop :=
  exists k p, for_target p /\
    (t = AEmit Connecting :: polls k ++ [AList; AOpen p; ADelay 1000] \/
     t = AEmit Connecting :: polls k
           ++ [AList; AOpen p; probe p; AClose p; ADelay 1000]).

(** The pass that connects. *)
Definition successful_pass (p : Port) (t : list action) : Prop :=
  exists k, for_target p /\
    t = AEmit Connecting :: polls k
          ++ [AList; AOpen p; probe p; AOnClose p; AEmit Connected].

(** A pass cut short by the fuel: nothing yet, or still polling. *)
Definition unfinished_pass (t : list action) : Prop :=
  t = [] \/ exists k, t = AEmit Connecting :: polls k.

(** The connection sequence in the words of the specification, section
    4.2: [connecting] is emitted once (step 1) and a retry resumes at
    device discovery (step 2). *)
Fixpoint spec_connect_loop (fuel : nat) : M Port :=
  match fuel with
  | O => out_of_fuel
  | S n =>
      serialPort <- discover_open_probe n ;;
      match serialPort with
      | Some p => ret p
      | None => spec_connect_loop n
      end
  end.

Definition spec_getTransport (fuel : nat) : M Port :=
  s <- get ;;
  match held s with
  | None =>
      emit Connecting ;;;
      serialPort <- spec_connect_loop fuel ;;
      on_close serialPort ;;;
      modify (set_held (Some serialPort)) ;;;
      emit Connected ;;;
      ret serialPort
  | Some p => ret p
  end.

(** *** One exchange with the device *)

(** The device after the command is written to [p] and, when asked for,
    the echoed line is read off; the error if that read fails. *)
Definition echo_skipped (p : Port) (command : string)
           (opts : ExecuteCommandOptions) (w : dev) : error + dev :=
  let w1 := dev_write p command w in
  if skipFirstLine opts
  then match dev_read p (PStr crlf) (Some 1000%Z) w1 with
       | (inr _, w2) => inr w2
       | (inl e, _) => inl e
       end
  else inr w1.

(** What the client does in an exchange, up to the main read. *)
Definition exchange (p : Port) (command : string)
           (opts : ExecuteCommandOptions) : list action :=
  AWrite p command
  :: (if skipFirstLine opts
      then [ARead p (PStr crlf) (Some 1000%Z)] else [])
  ++ [ARead p (commandEndOutputSignRegex opts) (Some 5000%Z)].

(** The re-read after a PIN request. *)
Definition pin_wait (p : Port) (opts : ExecuteCommandOptions)
  : list action :=
  [AEmit PinRequested; ARead p (commandEndOutputSignRegex opts) None].

(** *** The session invariant *)

Definition session_ok (s : State) : Prop :=
  peak s <= 1 /\
  live s = match held s with Some p => [p] | None => [] end /\
  (forall p, held s = Some p -> is_observed p s = true).

(** A computation that keeps the invariant. *)
Definition preserves {A : Type} (m : M A) : Prop :=
  forall s, session_ok s -> session_ok (snd (m s)).

(** A computation that leaves the session as it is. *)
Definition quiet {A : Type} (m : M A) : Prop :=
  forall s,
    held (snd (m s)) = held s /\ observed (snd (m s)) = observed s /\
    live (snd (m s)) = live s /\ peak (snd (m s)) = peak s.

End Vocabulary.

(** ** The rest of the client, and the icon lookup *)

Section Listing.

Context {K : Constants} {D : Device}.

(** The rows and the parser [parseFromString] of [./ascii-table-parse],
    which is not among the sources, are parameters. *)
Variable Row : Type.
Variable parseFromString : string -> list Row.

(** Lines 146-149 *)
Definition listTokens (fuel : nat) : M (list Row) :=
  response <- executeCommand fuel (TotpCommand ++ " ls" ++ String cr "")
                             no_options ;;
  ret (match response with
       | Some r => if Js.truthy response then parseFromString r else []
       | None => []
       end).

End Listing.

Section MoreVocabulary.

Context {K : Constants} {D : Device}.

(** The device after [k] polls of the enumeration that show no matching
    endpoint, each followed by the one-second wait; nothing if a matching
    endpoint shows up before. *)
Fixpoint absent_for (k : nat) (w : dev) : option dev :=
  match k with
  | O => Some w
  | S k' =>
      let (l, w1) := dev_list w in
      match findDevice l with
      | Some _ => None
      | None => absent_for k' (dev_delay 1000 w1)
      end
  end.

(** The port built for endpoint [d] by a client in state [s]. *)
Definition port_for (s : State) (d : PortInfo) : Port :=
  {| port_id := next_id s; port_path := path d; port_baud := 115200 |}.

(** The client after a pass whose open failed: [k] polls, the endpoint
    [d] found, the open tried, one second waited; the device is at [w]. *)
Definition after_open_failure (s : State) (k : nat) (d : PortInfo)
           (w : dev) : State :=
  {| held := None; observed := observed s; live := live s;
     peak := peak s; next_id := S (next_id s);
     trace := trace s
              ++ AEmit Connecting
              :: polls k ++ [AList; AOpen (port_for s d); ADelay 1000];
     world := w |}.

(** The client after a pass whose probe failed: the port was opened, then
    closed again. *)
Definition after_probe_failure (s : State) (k : nat) (d : PortInfo)
           (w : dev) : State :=
  {| held := None; observed := observed s;
     live := without (port_for s d) (live s);
     peak := Nat.max (peak s) (S (List.length (live s)));
     next_id := S (next_id s);
     trace := trace s
              ++ AEmit Connecting
              :: polls k
              ++ [AList; AOpen (port_for s d); probe (port_for s d);
                  AClose (port_for s d); ADelay 1000];
     world := w |}.

(** The client after the pass that connects. *)
Definition after_connection (s : State) (k : nat) (d : PortInfo)
           (w : dev) : State :=
  {| held := Some (port_for s d);
     observed := port_for s d :: observed s;
     live := port_for s d :: live s;
     peak := Nat.max (peak s) (S (List.length (live s)));
     next_id := S (next_id s);
     trace := trace s
              ++ AEmit Connecting
              :: polls k
              ++ [AList; AOpen (port_for s d); probe (port_for s d);
                  AOnClose (port_for s d); AEmit Connected];
     world := w |}.

(** What the executor may do while running [command] on port [p]. *)
Definition command_traffic (p : Port) (command : string)
           (opts : ExecuteCommandOptions) (a : action) : Prop :=
  a = AWrite p command \/
  a = ARead p (PStr crlf) (Some 1000%Z) \/
  a = ARead p (commandEndOutputSignRegex opts) (Some 5000%Z) \/
  a = ARead p (commandEndOutputSignRegex opts) None \/
  a = ADelay 1000 \/
  a = AEmit PinRequested.

(** The session part of two states is the same. *)
Definition same_session (s s' : State) : Prop :=
  held s' = held s /\ observed s' = observed s /\ live s' = live s /\
  peak s' = peak s /\ next_id s' = next_id s.

End MoreVocabulary.

(** [a] is [b] with some code units left out. *)
Inductive subseq : string -> string -> Prop :=
| subseq_empty : subseq EmptyString EmptyString
| subseq_keep (c : ascii) (a b : string) :
    subseq a b -> subseq (String c a) (String c b)
| subseq_skip (c : ascii) (a b : string) :
    subseq a b -> subseq a (String c b).

(** [u] is [m] up to the letter case the flags ignore. *)
Fixpoint same_text (f : flags) (m u : string) : bool :=
  match m, u with
  | EmptyString, EmptyString => true
  | String a m', String b u' => char_eq f a b && same_text f m' u'
  | _, _ => false
  end.

(** Position [c'] lies at or after position [c] in the same input. *)
Definition reaches (c c' : cursor) : Prop :=
  exists pre, rest c = (pre ++ rest c')%string.

(** A device whose shell is not up yet: it is there and opens, and every
    read on it returns the shell's refusal of the command. *)
Module Booting.

#[export] Instance booting : Device := {|
  dev := nat;
  dev_list := fun w => ([Sim.flipper], w);
  dev_open := fun _ w => (None, w);
  dev_read := fun _ _ _ w => (inr (Some "cmd: command not found"%string), w);
  dev_write := fun _ _ w => S w;
  dev_close := fun _ w => w;
  dev_delay := fun _ w => w
|}.

(** A client that holds [Sim.port0], open on this device. *)
Definition connected : @State booting :=
  @Build_State booting (Some Sim.port0) [Sim.port0] [Sim.port0] 1 1 [] 0.

End Booting.

(** A device that is there and opens, and answers every read with the
    same response [r]. *)
Module Repeating.

Definition device (r : option string) : Device := {|
  dev := nat;
  dev_list := fun w => ([Sim.flipper], w);
  dev_open := fun _ w => (None, w);
  dev_read := fun _ _ _ w => (inr r, w);
  dev_write := fun _ _ w => S w;
  dev_close := fun _ w => w;
  dev_delay := fun _ w => w
|}.

(** A client that holds [Sim.port0], open on such a device. *)
Definition connected (r : option string) : @State (device r) :=
  @Build_State (device r) (Some Sim.port0) [Sim.port0] [Sim.port0] 1 1 [] 0.

(** A response with both the cancelled and the not-found sentinel. *)
Definition both_sentinels : string :=
  "Cancelled by user, command not found".

End Repeating.

(** ** Icon lookup (findIcon) *)

Module Icons.

(** [toLowerCase] on one code unit below 256: the letters A-Z and the
    capital letters of Latin-1 (0xC0-0xDE but the multiplication sign). *)
Definition lower (c : ascii) : ascii :=
  let n := nat_of_ascii c in
  if Regex.between 65 90 n
     || (Regex.between 192 222 n && negb (Nat.eqb n 215))
  then ascii_of_nat (n + 32)
  else c.

(** [s.toLowerCase()] on a string of code units below 256, where the
    mapping works unit by unit.  On other text the real [toLowerCase] also
    looks at the context of a letter (the final sigma); such names are
    outside this model. *)
Fixpoint toLowerCase (s : string) : string :=
  match s with
  | EmptyString => EmptyString
  | String c s' => String (lower c) (toLowerCase s')
  end.

(** An entry of [catalog.icons].  The catalog itself, [./catalog.json], is
    not among the sources: it is an argument of the lookup. *)
Record IconMeta : Type := {
  issuer : list string;
  filename : string
}.

(** [i == nameNorm || nameNorm.includes(i)] *)
Definition issuer_matches (nameNorm i : string) : bool :=
  String.eqb i nameNorm || Js.includes i nameNorm.

(** [p.issuer.some(i => ...)] *)
Definition icon_matches (nameNorm : string) (p : IconMeta) : bool :=
  existsb (issuer_matches nameNorm) (issuer p).

Definition findIcon (icons : list IconMeta) (name : string)
  : option string :=
  let nameNorm := toLowerCase name in
  let iconMeta := find (icon_matches nameNorm) icons in
  option_map filename iconMeta.

(** A sample catalog. *)
Definition sample : list IconMeta :=
  [ {| issuer := ["github"%string]; filename := "github.png"%string |};
    {| issuer := ["google"%string; "gmail"%string];
       filename := "google.png"%string |};
    {| issuer := ["git"%string]; filename := "git.png"%string |} ].

End Icons.

(** ** Strings *)

Module JsFacts.

Import Js.
Local Open Scope string_scope.

Lemma startsWith_split (m s : string) :
  startsWith m s = true -> s = m ++ drop (String.length m) s.
Proof.
  revert s. induction m as [|c m IH]; intros s H; simpl in *.
  - reflexivity.
  - destruct s as [|b s]; [discriminate|].
    apply andb_prop in H. destruct H as [Hc Hm].
    apply Ascii.eqb_eq in Hc. subst b.
    simpl. f_equal. apply IH; assumption.
Qed.

Lemma length_app (a b : string) :
  String.length (a ++ b) = String.length a + String.length b.
Proof. induction a as [|c a IH]; simpl; [|rewrite IH]; reflexivity. Qed.









End JsFacts.

(** ** Device locator *)

Section Locator.

Context {K : Constants} {D : Device}.

Lemma loose_eq_true (a : option string) (b : string) :
  loose_eq a b = true <-> a = Some b.
Proof.
  destruct a as [x|]; simpl.
  - rewrite String.eqb_eq. split; congruence.
  - split; discriminate.
Qed.

Lemma is_flipper_true (p : PortInfo) :
  is_flipper p = true <-> matches_constants p.
Proof.
  unfold is_flipper, matches_constants.
  rewrite andb_true_iff, !loose_eq_true. tauto.
Qed.

Lemma is_flipper_false (p : PortInfo) :
  is_flipper p = false <-> ~ matches_constants p.
Proof.
  rewrite <- is_flipper_true. destruct (is_flipper p); split; congruence.
Qed.

Lemma find_first {A : Type} (f : A -> bool) (l : list A) :
  match find f l with
  | Some d =>
      exists l1 l2, l = l1 ++ d :: l2 /\ f d = true /\
                    forall q, In q l1 -> f q = false
  | None => forall q, In q l -> f q = false
  end.
Proof.
  induction l as [|a l IH]; simpl.
  - intros q [].
  - destruct (f a) eqn:Fa.
    + exists [], l. repeat split; trivial. intros q [].
    + destruct (find f l) as [d|].
      * destruct IH as (l1 & l2 & -> & Fd & Hl1).
        exists (a :: l1), l2. repeat split; trivial.
        intros q [<-|Hq]; auto.
      * intros q [<-|Hq]; auto.
Qed.

(** C6.  Whatever the enumeration returns, [getFlipperZeroDevice]
    resolves to the first endpoint of the list, in enumeration order,
    whose vendor and product identifiers equal the constants of the
    target hardware, and to nothing when no endpoint of the list has
    them.  The result is a function of the list. *)
Theorem getFlipperZeroDevice_first_match (s : State) :
  let serialDevices := fst (dev_list (world s)) in
  fst (getFlipperZeroDevice s) = Ok (findDevice serialDevices) /\
  match findDevice serialDevices with
  | Some d =>
      exists before after,
        serialDevices = before ++ d :: after /\
        matches_constants d /\
        forall q, In q before -> ~ matches_constants q
  | None => forall q, In q serialDevices -> ~ matches_constants q
  end.
Proof.
  intros serialDevices. split.
  - unfold getFlipperZeroDevice, bind, list_ports, ret.
    subst serialDevices. destruct (dev_list (world s)); reflexivity.
  - unfold findDevice. pose proof (find_first is_flipper serialDevices) as H.
    destruct (find is_flipper serialDevices) as [d|].
    + destruct H as (l1 & l2 & E & Fd & Hl1).
      exists l1, l2. repeat split; trivial.
      * apply is_flipper_true in Fd. apply Fd.
      * apply is_flipper_true in Fd. apply Fd.
      * intros q Hq. apply is_flipper_false. auto.
    + intros q Hq. apply is_flipper_false. auto.
Qed.

End Locator.

(** ** Sanitisation *)

Section Sanitisation.

Context {K : Constants}.

Import Js JsFacts.



End Sanitisation.

(** ** Session manager and command executor *)

Section Session.

Context {K : Constants} {D : Device}.

Lemma leave_leave (s : State) (t1 t2 : list action) (w1 w2 : dev) :
  leave (leave s t1 w1) t2 w2 = leave s (t1 ++ t2) w2.
Proof. unfold leave; simpl. now rewrite app_assoc. Qed.

Lemma count_app (p : action -> bool) (t1 t2 : list action) :
  count p (t1 ++ t2) = count p t1 + count p t2.
Proof. unfold count. now rewrite filter_app, length_app. Qed.


(** A held transport is handed out as it is. *)
Lemma getSerialPort_held (fuel : nat) (s : State) (p : Port) :
  held s = Some p -> getSerialPort fuel s = (Ok p, s).
Proof.
  intros H. unfold getSerialPort, bind, get. rewrite H. reflexivity.
Qed.

(** Once handed out, the transport is the held one. *)
Lemma getSerialPort_holds (fuel : nat) (s s' : State) (p : Port) :
  getSerialPort fuel s = (Ok p, s') -> held s' = Some p.
Proof.
  unfold getSerialPort, bind, get.
  destruct (held s) as [q|] eqn:Hh.
  - unfold ret. intros [= <- <-]. exact Hh.
  - destruct (connect_loop fuel s) as [[q|e|] s1]; try discriminate.
    unfold on_close, modify, emit, ret. simpl. intros [= <- <-].
    reflexivity.
Qed.

(** One pass through the executor's loop with a transport in hand. *)
Lemma attempt_held (fuel : nat) (command : string)
      (opts : ExecuteCommandOptions) (s : State) (p : Port) (w1 : dev) :
  held s = Some p ->
  echo_skipped p command opts (world s) = inr w1 ->
  let until := commandEndOutputSignRegex opts in
  let x := exchange p command opts in
  attempt fuel command opts s =
  match dev_read p until (Some 5000%Z) w1 with
  | (inl e, w2) => (Throw e, leave s x w2)
  | (inr r, w2) =>
      if commandFound r
      then if Js.has TotpAskForPin r
           then match dev_read p until None w2 with
                | (inr r', w3) =>
                    (Ok (true, r'), leave s (x ++ pin_wait p opts) w3)
                | (inl e, w3) =>
                    (Throw e, leave s (x ++ pin_wait p opts) w3)
                end
           else (Ok (true, r), leave s x w2)
      else (Ok (false, r),
            leave s (x ++ [ADelay 1000]) (dev_delay 1000 w2))
  end.
Proof.
  intros Hh He until x. subst until x.
  unfold attempt, echo_skipped, exchange, pin_wait in *.
  destruct s as [h o l pk nx tr w]. simpl in Hh, He. subst h.
  unfold bind, getSerialPort, get, writeAndDrain, readUntil, modify, ret,
    emit, delay, leave, log, set_world; simpl.
  destruct (skipFirstLine opts); simpl.
  - destruct (dev_read p (PStr crlf) (Some 1000%Z) (dev_write p command w))
      as [[e|r0] w'] eqn:E0; [discriminate|].
    injection He as ->. simpl.
    destruct (dev_read p (commandEndOutputSignRegex opts) (Some 5000%Z) w1)
      as [[e|r] w2]; simpl.
    + now rewrite <- !app_assoc.
    + destruct (commandFound r); simpl.
      * destruct (Js.has TotpAskForPin r); simpl.
        -- destruct (dev_read p (commandEndOutputSignRegex opts) None w2)
             as [[e|r'] w3]; simpl; now rewrite <- !app_assoc.
        -- now rewrite <- !app_assoc.
      * now rewrite <- !app_assoc.
  - injection He as <-.
    destruct (dev_read p (commandEndOutputSignRegex opts) (Some 5000%Z)
                       (dev_write p command w))
      as [[e|r] w2]; simpl.
    + now rewrite <- !app_assoc.
    + destruct (commandFound r); simpl.
      * destruct (Js.has TotpAskForPin r); simpl.
        -- destruct (dev_read p (commandEndOutputSignRegex opts) None w2)
             as [[e|r'] w3]; simpl; now rewrite <- !app_assoc.
        -- now rewrite <- !app_assoc.
      * now rewrite <- !app_assoc.
Qed.

Lemma bind_ok {A B : Type} (m : M A) (f : A -> M B) (s s' : State)
      (a : A) :
  m s = (Ok a, s') -> bind m f s = f a s'.
Proof. intros H. unfold bind. now rewrite H. Qed.

(** Acquiring the transport first changes nothing for what follows. *)
Lemma attempt_connected (fuel : nat) (command : string)
      (opts : ExecuteCommandOptions) (s s0 : State) (p : Port) :
  getSerialPort fuel s = (Ok p, s0) ->
  attempt fuel command opts s = attempt fuel command opts s0.
Proof.
  intros H. pose proof (getSerialPort_holds _ _ _ _ H) as Hh.
  unfold attempt.
  match goal with
  | |- bind ?m ?f s = bind ?m ?f s0 =>
      rewrite (bind_ok m f s s0 p H);
      rewrite (bind_ok m f s0 s0 p (getSerialPort_held fuel s0 p Hh))
  end.
  reflexivity.
Qed.

Lemma collect_connected (n : nat) (command : string)
      (opts : ExecuteCommandOptions) (s s0 : State) (p : Port) :
  getSerialPort n s = (Ok p, s0) ->
  collect (S n) command opts s = collect (S n) command opts s0.
Proof.
  intros H. simpl. unfold bind.
  now rewrite (attempt_connected n command opts s s0 p H).
Qed.

Section OnePass.

Variables (n : nat) (command : string) (opts : ExecuteCommandOptions).
Variables (s : State) (p : Port) (w1 w2 : dev) (r : option string).

Let until := commandEndOutputSignRegex opts.
Let x := exchange p command opts.

Hypothesis Hheld : held s = Some p.
Hypothesis Hecho : echo_skipped p command opts (world s) = inr w1.
Hypothesis Hread : dev_read p until (Some 5000%Z) w1 = (inr r, w2).

(** A response without the command: wait a second and go round again. *)
Lemma collect_not_found :
  commandFound r = false ->
  collect (S n) command opts s
  = collect n command opts
            (leave s (x ++ [ADelay 1000]) (dev_delay 1000 w2)).
Proof.
  intros Hf. simpl. unfold bind.
  rewrite (attempt_held n command opts s p w1 Hheld Hecho).
  fold until. rewrite Hread, Hf. reflexivity.
Qed.

(** An accepted response without a PIN request ends the loop. *)
Lemma collect_found :
  commandFound r = true ->
  Js.has TotpAskForPin r = false ->
  collect (S n) command opts s = (Ok r, leave s x w2).
Proof.
  intros Hf Hp. simpl. unfold bind.
  rewrite (attempt_held n command opts s p w1 Hheld Hecho).
  fold until. rewrite Hread, Hf, Hp. reflexivity.
Qed.

(** An accepted response with a PIN request: one event, one unbounded
    re-read, whose answer replaces the response. *)
Lemma collect_found_pin :
  commandFound r = true ->
  Js.has TotpAskForPin r = true ->
  collect (S n) command opts s
  = match dev_read p until None w2 with
    | (inr r', w3) => (Ok r', leave s (x ++ pin_wait p opts) w3)
    | (inl e, w3) => (Throw e, leave s (x ++ pin_wait p opts) w3)
    end.
Proof.
  intros Hf Hp. simpl. unfold bind.
  rewrite (attempt_held n command opts s p w1 Hheld Hecho).
  fold until. rewrite Hread, Hf, Hp.
  destruct (dev_read p until None w2) as [[e|r'] w3]; reflexivity.
Qed.

End OnePass.

Lemma count_exchange_write (p : Port) (c : string)
      (opts : ExecuteCommandOptions) :
  count is_write (exchange p c opts) = 1.
Proof. unfold exchange. destruct (skipFirstLine opts); reflexivity. Qed.

Lemma count_exchange_delay (p : Port) (c : string)
      (opts : ExecuteCommandOptions) :
  count is_delay (exchange p c opts) = 0.
Proof. unfold exchange. destruct (skipFirstLine opts); reflexivity. Qed.

Lemma count_exchange_pin (p : Port) (c : string)
      (opts : ExecuteCommandOptions) :
  count (is_emit PinRequested) (exchange p c opts) = 0.
Proof. unfold exchange. destruct (skipFirstLine opts); reflexivity. Qed.

Lemma commandFound_text (t : string) :
  t <> EmptyString ->
  commandFound (Some t)
  = negb (Js.includes FlipperCliCommandNotFound t).
Proof.
  intros Ht. unfold commandFound. simpl.
  destruct t; [contradiction | reflexivity].
Qed.

Lemma commandFound_not_found (t : string) :
  Js.includes FlipperCliCommandNotFound t = true ->
  commandFound (Some t) = false.
Proof.
  intros H. unfold commandFound. simpl Js.has. rewrite H.
  apply andb_false_r.
Qed.

(** C8.  When the main read, the one bounded by the 5-second deadline,
    fails, the failure is the outcome of [executeCommand]: the error of
    the read (the timeout, when the end of the response never shows up in
    time) reaches the caller, and the read is the last thing the client
    does: no delay, no second write.  This holds with one unit of fuel
    already, so the call does not hang. *)
Theorem executeCommand_main_read_timeout
        (n : nat) (command : string) (options : PartialOptions)
        (s s0 : State) (p : Port) (w1 w2 : dev) (e : error) :
  let opts := assign executeCommandDefaultOptions options in
  getSerialPort n s = (Ok p, s0) ->
  echo_skipped p command opts (world s0) = inr w1 ->
  dev_read p (commandEndOutputSignRegex opts) (Some 5000%Z) w1
  = (inl e, w2) ->
  executeCommand (S n) command options s
  = (Throw e, leave s0 (exchange p command opts) w2).
Proof.
  intros opts Hp He Hr. unfold executeCommand. fold opts.
  unfold bind at 1. rewrite (collect_connected n command opts s s0 p Hp).
  simpl. unfold bind.
  rewrite (attempt_held n command opts s0 p w1
             (getSerialPort_holds _ _ _ _ Hp) He).
  rewrite Hr. reflexivity.
Qed.

(** C4.  The transport answers the command with a response containing
    the command-not-found sentinel, twice, and then with a response
    without it.  [executeCommand] then writes the command three times,
    waits one second after each of the two rejected responses and nowhere
    else, and resolves from the third attempt alone: to the
    post-processed third response or, when that response asks for a PIN,
    to what the re-read of that attempt yields. *)
Theorem executeCommand_retries_twice
        (n : nat) (command : string) (options : PartialOptions)
        (s s0 : State) (p : Port) (t1 t2 t3 : string)
        (w1 w1' w2 w2' w3 w3' : dev) :
  let opts := assign executeCommandDefaultOptions options in
  let until := commandEndOutputSignRegex opts in
  let x := exchange p command opts in
  let tr := x ++ [ADelay 1000] ++ x ++ [ADelay 1000] ++ x in
  getSerialPort (S (S n)) s = (Ok p, s0) ->
  echo_skipped p command opts (world s0) = inr w1 ->
  dev_read p until (Some 5000%Z) w1 = (inr (Some t1), w1') ->
  Js.includes FlipperCliCommandNotFound t1 = true ->
  echo_skipped p command opts (dev_delay 1000 w1') = inr w2 ->
  dev_read p until (Some 5000%Z) w2 = (inr (Some t2), w2') ->
  Js.includes FlipperCliCommandNotFound t2 = true ->
  echo_skipped p command opts (dev_delay 1000 w2') = inr w3 ->
  dev_read p until (Some 5000%Z) w3 = (inr (Some t3), w3') ->
  t3 <> EmptyString ->
  Js.includes FlipperCliCommandNotFound t3 = false ->
  executeCommand (S (S (S n))) command options s
  = (if Js.includes TotpAskForPin t3
     then match dev_read p until None w3' with
          | (inr r, w4) =>
              (Ok (postProcess opts r),
               leave s0 (tr ++ pin_wait p opts) w4)
          | (inl e, w4) =>
              (Throw e, leave s0 (tr ++ pin_wait p opts) w4)
          end
     else (Ok (postProcess opts (Some t3)), leave s0 tr w3'))
  /\ count is_write tr = 3
  /\ count is_delay tr = 2.
Proof.
  intros opts until x tr Hp He1 Hr1 Hn1 He2 Hr2 Hn2 He3 Hr3 Ht3 Hn3.
  pose proof (getSerialPort_holds _ _ _ _ Hp) as Hh.
  split; [|split].
  - unfold executeCommand. fold opts. unfold bind at 1.
    rewrite (collect_connected _ command opts s s0 p Hp).
    rewrite (collect_not_found (S (S n)) command opts s0 p w1 w1'
               (Some t1) Hh He1 Hr1 (commandFound_not_found t1 Hn1)).
    fold x.
    set (s1 := leave s0 (x ++ [ADelay 1000]) (dev_delay 1000 w1')).
    rewrite (collect_not_found (S n) command opts s1 p w2 w2'
               (Some t2) Hh He2 Hr2 (commandFound_not_found t2 Hn2)).
    fold x. subst s1. rewrite leave_leave.
    assert (Hf : commandFound (Some t3) = true).
    { rewrite (commandFound_text t3 Ht3), Hn3. reflexivity. }
    replace ((x ++ [ADelay 1000]) ++ x ++ [ADelay 1000])
      with (x ++ [ADelay 1000] ++ x ++ [ADelay 1000])
      by now rewrite <- app_assoc.
    set (s2 := leave s0 (x ++ [ADelay 1000] ++ x ++ [ADelay 1000])
                     (dev_delay 1000 w2')).
    destruct (Js.includes TotpAskForPin t3) eqn:Hpin.
    + rewrite (collect_found_pin n command opts s2 p w3 w3'
                 (Some t3) Hh He3 Hr3 Hf Hpin).
      fold until. fold x. subst s2.
      destruct (dev_read p until None w3') as [[e|r] w4];
        rewrite leave_leave; subst tr;
        rewrite <- !app_assoc; reflexivity.
    + rewrite (collect_found n command opts s2 p w3 w3'
                 (Some t3) Hh He3 Hr3 Hf Hpin).
      fold x. subst s2. rewrite leave_leave. subst tr.
      rewrite <- !app_assoc. reflexivity.
  - subst tr x. rewrite !count_app, !count_exchange_write. reflexivity.
  - subst tr x. rewrite !count_app, !count_exchange_delay. reflexivity.
Qed.

(** C2, as the code has it.  The accepted response asks for a PIN:
    [executeCommand] emits [pin-requested] once, reads again with no
    deadline until the detection pattern matches, and resolves from that
    second text alone, or fails with the error of the second read.  The
    first response, with its PIN prompt, is dropped; nothing is taken out
    of the second text beyond the usual sanitisation. *)
Theorem executeCommand_pin_request
        (n : nat) (command : string) (options : PartialOptions)
        (s s0 : State) (p : Port) (t1 : string) (w1 w2 : dev) :
  let opts := assign executeCommandDefaultOptions options in
  let until := commandEndOutputSignRegex opts in
  let tr := exchange p command opts ++ pin_wait p opts in
  getSerialPort n s = (Ok p, s0) ->
  echo_skipped p command opts (world s0) = inr w1 ->
  dev_read p until (Some 5000%Z) w1 = (inr (Some t1), w2) ->
  t1 <> EmptyString ->
  Js.includes TotpAskForPin t1 = true ->
  Js.includes FlipperCliCommandNotFound t1 = false ->
  executeCommand (S n) command options s
  = match dev_read p until None w2 with
    | (inr r, w3) => (Ok (postProcess opts r), leave s0 tr w3)
    | (inl e, w3) => (Throw e, leave s0 tr w3)
    end
  /\ count (is_emit PinRequested) tr = 1
  /\ count is_write tr = 1
  /\ count is_delay tr = 0.
Proof.
  intros opts until tr Hp He Hr Ht Hpin Hnf.
  pose proof (getSerialPort_holds _ _ _ _ Hp) as Hh.
  assert (Hf : commandFound (Some t1) = true).
  { rewrite (commandFound_text t1 Ht), Hnf. reflexivity. }
  split; [|split; [|split]].
  - unfold executeCommand. fold opts. unfold bind at 1.
    rewrite (collect_connected _ command opts s s0 p Hp).
    rewrite (collect_found_pin n command opts s0 p w1 w2
               (Some t1) Hh He Hr Hf Hpin).
    fold until.
    destruct (dev_read p until None w2) as [[e|r] w3]; reflexivity.
  - subst tr. rewrite count_app, count_exchange_pin. reflexivity.
  - subst tr. rewrite count_app, count_exchange_write. reflexivity.
  - subst tr. rewrite count_app, count_exchange_delay. reflexivity.
Qed.

(** Post-processing turns an absent, an empty and a cancelled response
    into [null], whatever the options. *)
Lemma postProcess_null (opts : ExecuteCommandOptions) (r : option string) :
  Js.truthy r = false \/ Js.has TotpCommandCancelled r = true ->
  postProcess opts r = None.
Proof.
  intros Hr. unfold postProcess. destruct r as [t|]; [|reflexivity].
  destruct Hr as [Hr|Hr].
  - rewrite Hr. reflexivity.
  - simpl in Hr. rewrite Hr, orb_true_r. reflexivity.
Qed.

(** C5, as the code has it.  The main read yields a response that the
    loop accepts: not empty, and without the command-not-found sentinel.
    When that response asks for no PIN and contains the cancelled
    sentinel, [executeCommand] resolves to [null] after this one exchange.
    When it asks for a PIN and the re-read yields no response (an absent
    or an empty one) or one with the cancelled sentinel, [executeCommand]
    resolves to [null] after the exchange and the PIN wait.  Either way no
    sanitisation step runs, whatever the options, and [null] is not the
    empty string.  (A main read with no response is not among these
    cases: the loop retries it.) *)
Theorem executeCommand_no_response
        (n : nat) (command : string) (options : PartialOptions)
        (s s0 : State) (p : Port) (t : string) (w1 w2 : dev) :
  let opts := assign executeCommandDefaultOptions options in
  let until := commandEndOutputSignRegex opts in
  let x := exchange p command opts in
  getSerialPort n s = (Ok p, s0) ->
  echo_skipped p command opts (world s0) = inr w1 ->
  dev_read p until (Some 5000%Z) w1 = (inr (Some t), w2) ->
  t <> EmptyString ->
  Js.includes FlipperCliCommandNotFound t = false ->
  (Js.includes TotpAskForPin t = false ->
   Js.includes TotpCommandCancelled t = true ->
   executeCommand (S n) command options s = (Ok None, leave s0 x w2)) /\
  (Js.includes TotpAskForPin t = true ->
   forall (r : option string) (w3 : dev),
     dev_read p until None w2 = (inr r, w3) ->
     Js.truthy r = false \/ Js.has TotpCommandCancelled r = true ->
     executeCommand (S n) command options s
     = (Ok None, leave s0 (x ++ pin_wait p opts) w3)) /\
  (None : option string) <> Some EmptyString.
Proof.
  intros opts until x Hp He Hr Ht Hnf.
  pose proof (getSerialPort_holds _ _ _ _ Hp) as Hh.
  assert (Hf : commandFound (Some t) = true).
  { rewrite (commandFound_text t Ht), Hnf. reflexivity. }
  split; [|split; [|discriminate]].
  - intros Hpin Hc.
    unfold executeCommand. fold opts. unfold bind at 1.
    rewrite (collect_connected _ command opts s s0 p Hp).
    rewrite (collect_found n command opts s0 p w1 w2
               (Some t) Hh He Hr Hf Hpin).
    unfold ret. rewrite (postProcess_null opts (Some t)); [reflexivity|].
    right. exact Hc.
  - intros Hpin r w3 Hr2 Hnull.
    unfold executeCommand. fold opts. unfold bind at 1.
    rewrite (collect_connected _ command opts s s0 p Hp).
    rewrite (collect_found_pin n command opts s0 p w1 w2
               (Some t) Hh He Hr Hf Hpin).
    fold until. rewrite Hr2.
    unfold ret. rewrite (postProcess_null opts r Hnull). reflexivity.
Qed.

End Session.


(** ** The connection sequence *)

Section Connection.

Context {K : Constants} {D : Device}.

Lemma findDevice_matches (l : list PortInfo) (d : PortInfo) :
  findDevice l = Some d -> matches_constants d.
Proof.
  intros H. apply find_some in H. now apply is_flipper_true.
Qed.

(** Polling for the device: a run of unsuccessful polls, then the
    successful one, unless the fuel ends first. *)
Lemma waitForFlipperZeroDevice_shape (fuel : nat) (s : State) :
  let r := fst (waitForFlipperZeroDevice fuel s) in
  let s' := snd (waitForFlipperZeroDevice fuel s) in
  held s' = held s /\ observed s' = observed s /\
  live s' = live s /\ peak s' = peak s /\
  exists k,
    match r with
    | Ok d => trace s' = trace s ++ polls k ++ [AList] /\
              matches_constants d
    | OutOfFuel => trace s' = trace s ++ polls k
    | Throw _ => False
    end.
Proof.
  revert s. induction fuel as [|n IH]; intros s; simpl.
  - repeat split; trivial. exists 0. simpl. now rewrite app_nil_r.
  - unfold bind at 1. unfold getFlipperZeroDevice, bind, list_ports, ret.
    destruct (dev_list (world s)) as [l w] eqn:El.
    destruct (findDevice l) as [d|] eqn:Ef.
    + simpl. repeat split; trivial. exists 0. simpl. split; trivial.
      eapply findDevice_matches; eassumption.
    + unfold delay, modify.
      set (s2 := set_world (dev_delay 1000 (world (set_world w (log AList s))))
                   (log (ADelay 1000) (set_world w (log AList s)))).
      specialize (IH s2).
      destruct IH as (H1 & H2 & H3 & H4 & k & Hk).
      change (held s2) with (held s) in H1.
      change (observed s2) with (observed s) in H2.
      change (live s2) with (live s) in H3.
      change (peak s2) with (peak s) in H4.
      repeat split; trivial.
      exists (S k).
      change (trace s2) with ((trace s ++ [AList]) ++ [ADelay 1000]) in Hk.
      destruct (fst (waitForFlipperZeroDevice n s2)) as [d|e|].
      * destruct Hk as [Ht Hd]. split; trivial.
        rewrite Ht. simpl. now rewrite <- !app_assoc.
      * exact Hk.
      * rewrite Hk. simpl. now rewrite <- !app_assoc.
Qed.

(** Discovery, open and probe: the three ways a pass can go. *)
Lemma discover_open_probe_shape (fuel : nat) (s s' : State)
      (r : res (option Port)) :
  held s = None ->
  discover_open_probe fuel s = (r, s') ->
  held s' = None /\ observed s' = observed s /\
  (live s = [] -> peak s <= 1 ->
   peak s' <= 1 /\
   live s' = match r with Ok (Some p) => [p] | _ => [] end) /\
  match r with
  | Ok (Some p) =>
      for_target p /\
      exists k, trace s' = trace s ++ polls k ++ [AList; AOpen p; probe p]
  | Ok None =>
      exists k p, for_target p /\
        (trace s' = trace s ++ polls k ++ [AList; AOpen p; ADelay 1000] \/
         trace s' = trace s ++ polls k
                      ++ [AList; AOpen p; probe p; AClose p; ADelay 1000])
  | OutOfFuel => exists k, trace s' = trace s ++ polls k
  | Throw _ => False
  end.
Proof.
  intros Hh E. unfold discover_open_probe in E. unfold bind at 1 in E.
  pose proof (waitForFlipperZeroDevice_shape fuel s) as Hw.
  destruct (waitForFlipperZeroDevice fuel s) as [r1 s1].
  simpl in Hw. destruct Hw as (H1 & H2 & H3 & H4 & k & Hk).
  destruct r1 as [d|e|]; [|contradiction|].
  2:{ injection E as <- <-. rewrite H1, H2, H3, H4.
      repeat split; trivial. exists k. exact Hk. }
  destruct Hk as [Ht Hd].
  set (p := {| port_id := next_id s1; port_path := path d;
               port_baud := 115200 |}) in *.
  assert (Hp : for_target p) by reflexivity.
  unfold bind, new_SerialPort, try_catch, openAsync, readUntil, closeAsync,
    delay, modify, ret, port_closed in E.
  fold p in E. cbn [world log set_world set_next_id] in E.
  destruct (dev_open p (world s1)) as [[e|] w1]; cbn in E.
  - (* the open fails *)
    injection E as <- <-. cbn.
    rewrite H1, H2, H3, H4, Hh.
    split; [reflexivity|]. split; [reflexivity|].
    split; [intros Hl Hpk; rewrite Hl; split; [lia | reflexivity]|].
    exists k, p. split; [exact Hp|]. left.
    rewrite Ht. now rewrite <- !app_assoc.
  - (* the open succeeds *)
    destruct (dev_read p (PStr FlipperCliEndOfCommand) (Some 1000%Z) w1)
      as [[e|r0] w2]; cbn in E.
    + (* the probe fails *)
      rewrite H3 in E.
      match type of E with
      | context [if ?b then _ else _] => destruct b
      end; cbn in E; injection E as <- <-; cbn;
        rewrite ?H1, ?H2, ?H4, ?Hh.
      * split; [reflexivity|]. split; [reflexivity|].
        split.
        { intros Hl Hpk. rewrite Hl, Nat.eqb_refl. cbn.
          split; [lia | reflexivity]. }
        exists k, p. split; [exact Hp|]. right.
        rewrite Ht. unfold probe. now rewrite <- !app_assoc.
      * split; [reflexivity|]. split; [reflexivity|].
        split.
        { intros Hl Hpk. rewrite Hl, Nat.eqb_refl. cbn.
          split; [lia | reflexivity]. }
        exists k, p. split; [exact Hp|]. right.
        rewrite Ht. unfold probe. now rewrite <- !app_assoc.
    + (* the probe succeeds *)
      injection E as <- <-. cbn.
      rewrite H1, H2, H3, H4, Hh.
      split; [reflexivity|]. split; [reflexivity|].
      split.
      { intros Hl Hpk. rewrite Hl. cbn. split; [lia | reflexivity]. }
      split; [exact Hp|]. exists k.
      rewrite Ht. unfold probe. now rewrite <- !app_assoc.
Qed.

(** The loop: passes that end in a retry, then the pass that connects,
    unless the fuel ends first.  No error leaves the loop. *)
Lemma connect_loop_shape (fuel : nat) :
  forall (s s' : State) (r : res Port),
    held s = None ->
    connect_loop fuel s = (r, s') ->
    held s' = None /\ observed s' = observed s /\
    (live s = [] -> peak s <= 1 ->
     peak s' <= 1 /\
     live s' = match r with Ok p => [p] | _ => [] end) /\
    exists passes,
      Forall failed_pass passes /\
      match r with
      | Ok p =>
          for_target p /\
          exists k,
            trace s' = trace s ++ List.concat passes
                         ++ AEmit Connecting :: polls k
                         ++ [AList; AOpen p; probe p]
      | OutOfFuel =>
          exists t, unfinished_pass t /\
                    trace s' = trace s ++ List.concat passes ++ t
      | Throw _ => False
      end.
Proof.
  induction fuel as [|n IH]; intros s s' r Hh E.
  - injection E as <- <-. repeat split; trivial.
    exists []. split; [constructor|].
    exists []. split; [now left | now rewrite !app_nil_r].
  - simpl in E. unfold bind at 1 in E. unfold connect_once in E.
    unfold bind at 1 in E. unfold emit, modify in E.
    set (s0 := log (AEmit Connecting) s) in E.
    destruct (discover_open_probe n s0) as [r1 s1] eqn:E1.
    apply discover_open_probe_shape in E1; [|exact Hh].
    destruct E1 as (G1 & G2 & G3 & G4).
    change (observed s0) with (observed s) in G2.
    change (live s0) with (live s) in G3.
    change (peak s0) with (peak s) in G3.
    change (trace s0) with (trace s ++ [AEmit Connecting]) in G4.
    destruct r1 as [[p|]|e|]; [| | contradiction |].
    + (* connected *)
      injection E as <- <-.
      split; [exact G1|]. split; [exact G2|]. split; [exact G3|].
      exists []. split; [constructor|].
      destruct G4 as [Hp [k Hk]]. split; [exact Hp|].
      exists k. rewrite Hk. simpl. now rewrite <- !app_assoc.
    + (* retry *)
      destruct (IH s1 s' r G1 E) as (I1 & I2 & I3 & passes & HF & Hr).
      split; [exact I1|]. split; [congruence|].
      split.
      { intros Hl Hpk. destruct (G3 Hl Hpk) as [Hpk1 Hl1].
        apply I3; assumption. }
      destruct G4 as (k & p & Hp & Ht).
      assert (Hpass : exists t, failed_pass t /\ trace s1 = trace s ++ t).
      { destruct Ht as [Ht|Ht].
        - exists (AEmit Connecting
                  :: polls k ++ [AList; AOpen p; ADelay 1000]).
          split.
          + exists k, p. split; [exact Hp | now left].
          + rewrite Ht. now rewrite <- !app_assoc.
        - exists (AEmit Connecting
                  :: polls k
                  ++ [AList; AOpen p; probe p; AClose p; ADelay 1000]).
          split.
          + exists k, p. split; [exact Hp | now right].
          + rewrite Ht. now rewrite <- !app_assoc. }
      destruct Hpass as (t & Hft & Hst).
      exists (t :: passes). split; [now constructor|].
      destruct r as [q|e|]; [| contradiction |].
      * destruct Hr as [Hq [k' Hk']]. split; [exact Hq|].
        exists k'. rewrite Hk', Hst. simpl List.concat.
        now rewrite <- !app_assoc.
      * destruct Hr as (u & Hu & Hk'). exists u. split; [exact Hu|].
        rewrite Hk', Hst. simpl List.concat. now rewrite <- !app_assoc.
    + (* out of fuel while polling *)
      injection E as <- <-.
      split; [exact G1|]. split; [exact G2|]. split; [exact G3|].
      exists []. split; [constructor|].
      destruct G4 as [k Hk].
      exists (AEmit Connecting :: polls k). split.
      * right. now exists k.
      * rewrite Hk. simpl. now rewrite <- !app_assoc.
Qed.

(** The traces of [getSerialPort] on a client that holds no transport:
    passes that end in a retry, then the pass that connects or, with too
    little fuel, a pass cut short.  No error reaches the caller. *)
Lemma getSerialPort_shape (fuel : nat) (s : State) :
  held s = None ->
  let r := fst (getSerialPort fuel s) in
  let s' := snd (getSerialPort fuel s) in
  exists passes last,
    Forall failed_pass passes /\
    trace s' = trace s ++ List.concat passes ++ last /\
    match r with
    | Ok p =>
        successful_pass p last /\ held s' = Some p /\
        is_observed p s' = true
    | OutOfFuel => unfinished_pass last /\ held s' = None
    | Throw _ => False
    end.
Proof.
  intros Hh r s'. subst r s'.
  unfold getSerialPort, bind, get. rewrite Hh.
  destruct (connect_loop fuel s) as [r1 s1] eqn:E.
  apply connect_loop_shape in E; [|exact Hh].
  destruct E as (G1 & G2 & _ & passes & HF & Hr).
  destruct r1 as [p|e|]; [| contradiction |].
  - destruct Hr as [Hp [k Hk]].
    exists passes,
      (AEmit Connecting
       :: polls k ++ [AList; AOpen p; probe p; AOnClose p; AEmit Connected]).
    split; [exact HF|]. cbn. split.
    + rewrite Hk. rewrite <- !app_assoc. simpl.
      rewrite <- !app_assoc. reflexivity.
    + split; [exists k; split; [exact Hp | reflexivity]|].
      split; [reflexivity|].
      unfold is_observed, same_port; cbn. now rewrite Nat.eqb_refl.
  - destruct Hr as (t & Ht & Hk).
    exists passes, t. cbn. repeat split; trivial.
Qed.

End Connection.

(** ** At most one live transport *)

Section Invariant.

Context {K : Constants} {D : Device}.

Lemma quiet_preserves {A : Type} (m : M A) : quiet m -> preserves m.
Proof.
  intros Hq s (Hpk & Hl & Ho).
  destruct (Hq s) as (Q1 & Q2 & Q3 & Q4).
  unfold session_ok, is_observed. rewrite Q1, Q2, Q3, Q4.
  repeat split; assumption.
Qed.

Lemma preserves_ret {A : Type} (a : A) : preserves (ret a).
Proof. intros s Hs. exact Hs. Qed.

Lemma preserves_bind {A B : Type} (m : M A) (f : A -> M B) :
  preserves m -> (forall a, preserves (f a)) -> preserves (bind m f).
Proof.
  intros Hm Hf s Hs. unfold bind. specialize (Hm s Hs).
  destruct (m s) as [[a|e|] s1]; simpl in *; trivial.
  now apply Hf.
Qed.

Lemma quiet_emit (e : event) : quiet (emit e).
Proof. intros s. repeat split. Qed.

Lemma quiet_delay (ms : Z) : quiet (delay ms).
Proof. intros s. repeat split. Qed.

Lemma quiet_writeAndDrain (p : Port) (c : string) :
  quiet (writeAndDrain p c).
Proof. intros s. repeat split. Qed.

Lemma quiet_readUntil (p : Port) (u : pattern) (d : option Z) :
  quiet (readUntil p u d).
Proof.
  intros s. unfold readUntil.
  destruct (dev_read p u d (world (log (ARead p u d) s))) as [[e|r] w];
    repeat split.
Qed.

Lemma same_port_refl (p : Port) : same_port p p = true.
Proof. apply Nat.eqb_refl. Qed.

(** Handing out the transport keeps the invariant: a transport is opened
    only when none is held and none is open. *)
Lemma preserves_getSerialPort (fuel : nat) : preserves (getSerialPort fuel).
Proof.
  intros s (Hpk & Hl & Ho).
  unfold getSerialPort, bind, get.
  destruct (held s) as [p|] eqn:Hh.
  - simpl. unfold session_ok. rewrite Hh. repeat split; trivial.
  - destruct (connect_loop fuel s) as [r1 s1] eqn:E.
    apply connect_loop_shape in E; [|exact Hh].
    destruct E as (G1 & G2 & G3 & _).
    destruct (G3 Hl Hpk) as [Hpk1 Hl1].
    destruct r1 as [p|e|]; cbn.
    + unfold session_ok; cbn. repeat split; trivial.
      intros q [= <-]. unfold is_observed; cbn.
      now rewrite same_port_refl.
    + unfold session_ok. rewrite G1. repeat split; trivial.
      intros q Hq. discriminate.
    + unfold session_ok. rewrite G1. repeat split; trivial.
      intros q Hq. discriminate.
Qed.

Lemma preserves_attempt (fuel : nat) (c : string)
      (opts : ExecuteCommandOptions) :
  preserves (attempt fuel c opts).
Proof.
  unfold attempt.
  apply preserves_bind; [apply preserves_getSerialPort|]. intros p.
  apply preserves_bind;
    [apply quiet_preserves, quiet_writeAndDrain|]. intros _.
  apply preserves_bind.
  { destruct (skipFirstLine opts); [|apply preserves_ret].
    apply preserves_bind; [apply preserves_getSerialPort|]. intros q.
    apply preserves_bind; [apply quiet_preserves, quiet_readUntil|].
    intros _. apply preserves_ret. }
  intros _.
  apply preserves_bind; [apply preserves_getSerialPort|]. intros q.
  apply preserves_bind; [apply quiet_preserves, quiet_readUntil|].
  intros response.
  destruct (commandFound response).
  - destruct (Js.has TotpAskForPin response); [|apply preserves_ret].
    apply preserves_bind; [apply quiet_preserves, quiet_emit|]. intros _.
    apply preserves_bind; [apply preserves_getSerialPort|]. intros q'.
    apply preserves_bind; [apply quiet_preserves, quiet_readUntil|].
    intros r'. apply preserves_ret.
  - apply preserves_bind; [apply quiet_preserves, quiet_delay|].
    intros _. apply preserves_ret.
Qed.

Lemma preserves_collect (fuel : nat) (c : string)
      (opts : ExecuteCommandOptions) :
  preserves (collect fuel c opts).
Proof.
  induction fuel as [|n IH]; simpl.
  - intros s Hs. exact Hs.
  - apply preserves_bind; [apply preserves_attempt|]. intros [found r].
    simpl. destruct found; [apply preserves_ret | exact IH].
Qed.

Lemma preserves_executeCommand (fuel : nat) (c : string)
      (options : PartialOptions) :
  preserves (executeCommand fuel c options).
Proof.
  unfold executeCommand.
  apply preserves_bind; [apply preserves_collect|].
  intros r. apply preserves_ret.
Qed.

Lemma preserves_waitForApp (fuel : nat) : preserves (waitForApp fuel).
Proof.
  unfold waitForApp.
  apply preserves_bind; [apply preserves_executeCommand|].
  intros r. apply preserves_ret.
Qed.

Lemma preserves_waitForDevice (fuel : nat) :
  preserves (waitForDevice fuel).
Proof.
  intros s Hs. unfold waitForDevice. unfold bind at 1. unfold get.
  destruct (held s); [exact Hs|].
  apply (preserves_bind (getSerialPort fuel) (fun _ => ret tt));
    [apply preserves_getSerialPort | intros; apply preserves_ret
    | exact Hs].
Qed.

(** A closed channel leaves no transport, held or open. *)
Lemma port_closed_session_ok (p q : Port) (s : State) :
  session_ok s -> held s = Some p -> same_port q p = true ->
  session_ok (port_closed q s).
Proof.
  intros (Hpk & Hl & Ho) Hh Hq.
  rewrite Hh in Hl. specialize (Ho p Hh).
  assert (Hoq : is_observed q s = true).
  { unfold is_observed in *. apply existsb_exists in Ho.
    destruct Ho as (x & Hx & Hpx). apply existsb_exists.
    exists x. split; [exact Hx|].
    unfold same_port in *. apply Nat.eqb_eq in Hq, Hpx.
    apply Nat.eqb_eq. congruence. }
  unfold port_closed.
  change (is_observed q (set_live (without q (live s)) s))
    with (is_observed q s).
  rewrite Hoq, Hl. unfold without. cbn. rewrite Hq. cbn.
  unfold session_ok; cbn. repeat split; [lia | discriminate].
Qed.

Lemma preserves_close : preserves close.
Proof.
  intros s Hs. unfold close. unfold bind at 1. unfold bind at 1.
  unfold get. destruct (held s) as [p|] eqn:Hh.
  - unfold closeAsync, modify, emit.
    set (s1 := set_world (dev_close p (world s)) (log (AClose p) s)).
    assert (Hs1 : session_ok s1) by exact Hs.
    pose proof (port_closed_session_ok p p s1 Hs1 Hh (same_port_refl p))
      as Hc.
    exact Hc.
  - exact Hs.
Qed.

Lemma perform_session_ok (fuel : nat) (o : operation) (s : State) :
  session_ok s -> session_ok (perform fuel o s).
Proof.
  intros Hs. destruct o as [|c options| | | |q]; simpl.
  - now apply preserves_getSerialPort.
  - now apply preserves_executeCommand.
  - now apply preserves_waitForApp.
  - now apply preserves_waitForDevice.
  - now apply preserves_close.
  - destruct (existsb (same_port q) (live s)) eqn:E; [|exact Hs].
    destruct Hs as (Hpk & Hl & Ho).
    destruct (held s) as [p|] eqn:Hh.
    + rewrite Hl in E. simpl in E. rewrite orb_false_r in E.
      apply (port_closed_session_ok p q s); trivial.
      unfold session_ok. rewrite Hh. repeat split; trivial.
    + rewrite Hl in E. discriminate.
Qed.

Lemma run_session_ok (fuel : nat) (ops : list operation) :
  forall s, session_ok s -> session_ok (run fuel ops s).
Proof.
  unfold run. induction ops as [|o ops IH]; intros s Hs; simpl.
  - exact Hs.
  - apply IH. now apply perform_session_ok.
Qed.

(** C7.  Start from a fresh client and let any sequence of operations
    run on it: acquiring the transport, executing commands, waiting for
    the application or the device, closing, and the channel of an open
    transport going away.  Then no two transports were ever open at once
    ([peak] counts the most that were, inside operations included); the
    open transports are exactly the held one, if any; and the held
    transport carries the closure observer.  A transport is thus opened
    only when none is held, and a new session takes the place of the old
    one. *)
Theorem at_most_one_live_transport
        (fuel : nat) (ops : list operation) (w : dev) :
  let s := run fuel ops (initial w) in
  peak s <= 1 /\
  List.length (live s) <= 1 /\
  live s = match held s with Some p => [p] | None => [] end /\
  (forall p, held s = Some p -> is_observed p s = true).
Proof.
  intros s.
  assert (H : session_ok s).
  { apply run_session_ok. unfold session_ok, initial; simpl.
    repeat split; [lia | discriminate]. }
  destruct H as (Hpk & Hl & Ho).
  repeat split; trivial.
  rewrite Hl. destruct (held s); simpl; lia.
Qed.

End Invariant.

(** ** The simulated transport at work *)

Module Examples.

Import Sim.

Example findDevice_takes_the_first :
  findDevice [unnamed; other; flipper; second_flipper] = Some flipper.
Proof. reflexivity. Qed.

Example findDevice_finds_none :
  findDevice [unnamed; other] = None.
Proof. reflexivity. Qed.

Example default_marker_unbordered : unbordered FlipperCliEndOfCommand.
Proof.
  intros [|[|[|[|j]]]] [Hlo Hhi]; simpl in *; try reflexivity; lia.
Qed.

(** A blank line between two CRLF-terminated lines goes, and so does the
    line feed at the very end. *)
Example emptyLines_crlf :
  Regex.replace flags_gm emptyLinesRegex
    ("a" ++ crlf ++ crlf ++ "b" ++ crlf)%string
  = ("a" ++ crlf ++ "b" ++ String cr "")%string.
Proof. reflexivity. Qed.

(** Colour codes and cursor movements go; so does a single space between
    two word characters, where [\b \b] matches. *)
Example terminalControl_sample :
  Regex.replace flags_g terminalControlRegex
    (String esc "[31mred" ++ String esc "[0m two words  apart")%string
  = "redtwowords  apart".
Proof. reflexivity. Qed.


(** The end of the response never arrives: the timeout reaches the caller. *)
Lemma executeCommand_main_read_timeout_witness :
  fst (executeCommand 1 example_command no_options
         (connected (answering [unfinished_reply])))
  = Throw Timeout.
Proof.
  erewrite executeCommand_main_read_timeout with (p := port0);
    reflexivity.
Defined.

(** Command not found twice, then the listing. *)
Lemma executeCommand_retries_twice_witness :
  fst (executeCommand 3 example_command no_options
         (connected
            (answering [not_found_reply; not_found_reply; example_input])))
  = Ok (Some example_result).
Proof.
  edestruct (executeCommand_retries_twice 0 example_command no_options
               (connected
                  (answering [not_found_reply; not_found_reply;
                              example_input]))) as [H _];
    [reflexivity | reflexivity | reflexivity | reflexivity | reflexivity
    | reflexivity | reflexivity | reflexivity | reflexivity | discriminate
    | reflexivity | rewrite H; reflexivity].
Defined.

(** One PIN prompt, then the listing. *)
Lemma executeCommand_pin_request_witness :
  fst (executeCommand 1 example_command no_options
         (connected (answering [one_prompt_reply])))
  = Ok (Some (String lf "line1" ++ String cr ""))%string.
Proof.
  edestruct (executeCommand_pin_request 0 example_command no_options
               (connected (answering [one_prompt_reply])))
    as [H _];
    [reflexivity | reflexivity | reflexivity | discriminate | reflexivity
    | reflexivity | rewrite H; reflexivity].
Defined.

(** The device reports the command as cancelled. *)
Lemma executeCommand_no_response_witness :
  fst (executeCommand 1 example_command no_options
         (connected (answering [cancelled_reply])))
  = Ok None.
Proof.
  edestruct (executeCommand_no_response 0 example_command no_options
               (connected (answering [cancelled_reply])))
    as [H _];
    [reflexivity | reflexivity | reflexivity | discriminate | reflexivity
    | rewrite (H eq_refl eq_refl); reflexivity].
Defined.

(** C1, as stated, fails when a pass has to be retried: the retry does not
    resume at device discovery, it starts over from the [connecting]
    event.  With a first open that fails, the code emits [connecting]
    twice, where the sequence of the specification emits it once. *)
Lemma getSerialPort_reemits_connecting :
  let s := initial (plugged [false] []) in
  fst (getSerialPort 3 s) = Ok port1 /\
  trace (snd (getSerialPort 3 s))
  = [AEmit Connecting; AList; AOpen port0; ADelay 1000;
     AEmit Connecting; AList; AOpen port1; probe port1;
     AOnClose port1; AEmit Connected] /\
  trace (snd (spec_getTransport 3 s))
  = [AEmit Connecting; AList; AOpen port0; ADelay 1000;
     AList; AOpen port1; probe port1;
     AOnClose port1; AEmit Connected] /\
  count (is_emit Connecting) (trace (snd (getSerialPort 3 s))) = 2 /\
  trace (snd (getSerialPort 3 s)) <> trace (snd (spec_getTransport 3 s)).
Proof.
  intros s. split; [reflexivity|]. split; [reflexivity|].
  split; [reflexivity|]. split; [reflexivity|].
  vm_compute. discriminate.
Qed.

(** C2, as stated, fails when the device prompts a second time: the
    re-read stops at the second prompt and that text is what is returned.
    With terminal-control stripping off the sentinel is in the result
    verbatim; with the defaults it is there with its inner spaces
    stripped. *)
Lemma executeCommand_pin_prompt_returned :
  let s := connected (answering [two_prompts_reply]) in
  let opts := assign executeCommandDefaultOptions keep_control in
  exists (w1 w2 : device) (t1 t : string),
    echo_skipped port0 example_command opts (world s) = inr w1 /\
    dev_read port0 (commandEndOutputSignRegex opts) (Some 5000%Z) w1
    = (inr (Some t1), w2) /\
    Js.includes TotpAskForPin t1 = true /\
    Js.includes FlipperCliCommandNotFound t1 = false /\
    fst (executeCommand 1 example_command keep_control s) = Ok (Some t) /\
    Js.includes TotpAskForPin t = true /\
    fst (executeCommand 1 example_command no_options s)
    = Ok (Some (String lf "PleasesenterPINonyourflipperdevice")).
Proof.
  intros s opts. do 4 eexists.
  split; [reflexivity|]. split; [reflexivity|].
  split; [reflexivity|]. split; [reflexivity|].
  split; [reflexivity|]. split; reflexivity.
Qed.



End Examples.

(** ** What a match and a replacement can do to the text *)

Module RegexFacts.

Local Open Scope string_scope.

Lemma reaches_refl (c : cursor) : reaches c c.
Proof. exists "". reflexivity. Qed.

Lemma app_assoc_string (a b c : string) : (a ++ b) ++ c = a ++ b ++ c.
Proof. induction a as [|x a IH]; simpl; [|rewrite IH]; reflexivity. Qed.

Lemma reaches_trans (c1 c2 c3 : cursor) :
  reaches c1 c2 -> reaches c2 c3 -> reaches c1 c3.
Proof.
  intros [p1 H1] [p2 H2]. exists (p1 ++ p2).
  rewrite H1, H2. now rewrite app_assoc_string.
Qed.

Lemma step_reaches (p : ascii -> bool) (c : cursor)
      (k : cursor -> option cursor) (e : cursor) :
  step p c k = Some e -> exists c', reaches c c' /\ k c' = Some e.
Proof.
  unfold step. destruct (rest c) as [|b s] eqn:E; [discriminate|].
  destruct (p b); [|discriminate]. intros H.
  exists (Cursor (Some b) s). split; [|exact H].
  exists (String b ""). rewrite E. reflexivity.
Qed.

(** A match only moves forward in the input it was started on. *)
Lemma rmatch_reaches (f : flags) (r : regex) :
  forall (c : cursor) (k : cursor -> option cursor) (e : cursor),
    rmatch f r c k = Some e ->
    exists c', reaches c c' /\ k c' = Some e.
Proof.
  induction r as [|a| | | | | |r1 IH1 r2 IH2|r1 IH1 r2 IH2|r1 IH1|r1 IH1
                 |r1 IH1]; intros c k e H; simpl in H.
  - exists c. split; [apply reaches_refl | exact H].
  - now apply step_reaches in H.
  - now apply step_reaches in H.
  - now apply step_reaches in H.
  - destruct (at_bol f c); [|discriminate].
    exists c. split; [apply reaches_refl | exact H].
  - destruct (at_eol f c); [|discriminate].
    exists c. split; [apply reaches_refl | exact H].
  - destruct (at_word_boundary c); [|discriminate].
    exists c. split; [apply reaches_refl | exact H].
  - apply IH1 in H. destruct H as (c1 & R1 & H).
    apply IH2 in H. destruct H as (c2 & R2 & H).
    exists c2. split; [eapply reaches_trans; eassumption | exact H].
  - destruct (rmatch f r1 c k) as [e1|] eqn:E1.
    + injection H as <-. now apply IH1 in E1.
    + now apply IH2 in H.
  - revert H. generalize (remaining c) as n. intros n. revert c.
    induction n as [|n IHn]; intros c H.
    + match type of H with
      | match ?m with _ => _ end = _ => destruct m as [e1|] eqn:E1
      end.
      * apply IH1 in E1. destruct E1 as (c1 & _ & E1).
        destruct (Nat.ltb (remaining c1) (remaining c)); discriminate.
      * exists c. split; [apply reaches_refl | exact H].
    + match type of H with
      | match ?m with _ => _ end = _ => destruct m as [e1|] eqn:E1
      end.
      * injection H as <-.
        apply IH1 in E1. destruct E1 as (c1 & R1 & E1).
        destruct (Nat.ltb (remaining c1) (remaining c)); [|discriminate].
        apply IHn in E1. destruct E1 as (c2 & R2 & E2).
        exists c2. split; [eapply reaches_trans; eassumption | exact E2].
      * exists c. split; [apply reaches_refl | exact H].
  - destruct (rmatch f r1 c
                (fun c1 => if Nat.ltb (remaining c1) (remaining c)
                           then k c1 else None)) as [e1|] eqn:E1.
    + injection H as <-. apply IH1 in E1. destruct E1 as (c1 & R1 & E1).
      destruct (Nat.ltb (remaining c1) (remaining c)); [|discriminate].
      exists c1. split; assumption.
    + exists c. split; [apply reaches_refl | exact H].
  - now apply IH1 in H.
Qed.

Lemma exec_at_reaches (f : flags) (r : regex) (c e : cursor) :
  exec_at f r c = Some e -> reaches c e.
Proof.
  intros H. apply rmatch_reaches in H. destruct H as (c' & R & [= <-]).
  exact R.
Qed.

Lemma subseq_nil (s : string) : subseq "" s.
Proof. induction s; constructor; assumption. Qed.

Lemma subseq_refl (s : string) : subseq s s.
Proof. induction s; constructor; assumption. Qed.

Lemma subseq_prefix (pre a b : string) :
  subseq a b -> subseq a (pre ++ b).
Proof. induction pre; simpl; [|constructor]; auto. Qed.

Lemma subseq_app (a a' b b' : string) :
  subseq a b -> subseq a' b' -> subseq (a ++ a') (b ++ b').
Proof.
  induction 1; intros H'; simpl; [exact H' | constructor; auto
                                 | constructor; auto].
Qed.

Lemma subseq_trans (a b : string) :
  subseq a b -> forall c, subseq b c -> subseq a c.
Proof.
  intros Hab c Hbc. revert a Hab.
  induction Hbc as [|x b c Hbc IH|x b c Hbc IH]; intros a Hab.
  - exact Hab.
  - inversion Hab; subst.
    + constructor. now apply IH.
    + apply subseq_skip. now apply IH.
  - apply subseq_skip. now apply IH.
Qed.

Lemma subseq_length (a b : string) :
  subseq a b -> String.length a <= String.length b.
Proof. induction 1; simpl; lia. Qed.

Lemma drop_subseq (n : nat) (s : string) : subseq (Js.drop n s) s.
Proof.
  revert s. induction n as [|n IH]; intros [|c s]; simpl;
    try apply subseq_refl.
  apply subseq_skip, IH.
Qed.

Lemma replace_first_subseq (m s : string) :
  subseq (Js.replace_first m s) s.
Proof.
  induction s as [|c s IH]; simpl.
  - destruct (Js.startsWith m ""); [apply drop_subseq | constructor].
  - destruct (Js.startsWith m (String c s)).
    + apply drop_subseq.
    + constructor. exact IH.
Qed.

Lemma remove_all_subseq (f : flags) (r : regex) (fuel : nat) :
  forall c, subseq (remove_all_from fuel f r c) (rest c).
Proof.
  induction fuel as [|n IH]; intros c; simpl.
  - apply subseq_nil.
  - assert (Hkeep : subseq
                      match rest c with
                      | String b s =>
                          String b (remove_all_from n f r (Cursor (Some b) s))
                      | EmptyString => EmptyString
                      end (rest c)).
    { destruct (rest c) as [|b s]; [constructor|].
      constructor. apply (IH (Cursor (Some b) s)). }
    destruct (exec_at f r c) as [e|] eqn:E; [|exact Hkeep].
    destruct (Nat.ltb (remaining e) (remaining c)); [|exact Hkeep].
    apply exec_at_reaches in E. destruct E as [pre E].
    rewrite E. apply subseq_prefix. apply IH.
Qed.

Lemma search_from_split (f : flags) (r : regex) (fuel : nat) :
  forall c skipped e,
    search_from fuel f r c = Some (skipped, e) ->
    exists matched, rest c = skipped ++ matched ++ rest e.
Proof.
  induction fuel as [|n IH]; intros c skipped e H; simpl in H.
  - destruct (exec_at f r c) as [e1|] eqn:E; [|discriminate].
    injection H as <- <-. apply exec_at_reaches in E. exact E.
  - destruct (exec_at f r c) as [e1|] eqn:E.
    + injection H as <- <-. apply exec_at_reaches in E. exact E.
    + destruct (rest c) as [|b s] eqn:Er; [discriminate|].
      destruct (search_from n f r (Cursor (Some b) s))
        as [[sk e1]|] eqn:Es; [|discriminate].
      injection H as <- <-. apply IH in Es. destruct Es as [mt Es].
      exists mt. simpl in Es. rewrite Es. reflexivity.
Qed.

Lemma replace_subseq (f : flags) (r : regex) (s : string) :
  subseq (Regex.replace f r s) s.
Proof.
  unfold Regex.replace. destruct (global f).
  - apply (remove_all_subseq f r _ (start s)).
  - unfold search. destruct (search_from _ f r (start s))
      as [[skipped e]|] eqn:E; [|apply subseq_refl].
    apply search_from_split in E. destruct E as [mt E]. simpl in E.
    rewrite E. apply subseq_app; [apply subseq_refl|].
    apply subseq_prefix, subseq_refl.
Qed.

End RegexFacts.

Section OnlyDeletes.

Context {K : Constants}.

Import RegexFacts.

(** X1.  Sanitisation only deletes: whatever the options, and whether the
    end marker is a string or a pattern, the sanitised text is the
    response with some code units left out, in the same order; it is never
    longer than the response. *)
Theorem sanitize_only_deletes (opts : ExecuteCommandOptions) (r : string) :
  subseq (sanitize opts r) r /\
  String.length (sanitize opts r) <= String.length r.
Proof.
  assert (H : subseq (sanitize opts r) r).
  { unfold sanitize, trimEmpty, trimTerminalControl, trimEndSignature.
    apply subseq_trans with
      (b := if trimTerminalControlCommands opts
            then Regex.replace flags_g terminalControlRegex
                   (if trimCommandEndSignature opts
                    then replace_pattern (commandEndSign opts) r else r)
            else if trimCommandEndSignature opts
                 then replace_pattern (commandEndSign opts) r else r).
    - destruct (trimEmptyLines opts);
        [apply replace_subseq | apply subseq_refl].
    - apply subseq_trans with
        (b := if trimCommandEndSignature opts
              then replace_pattern (commandEndSign opts) r else r).
      + destruct (trimTerminalControlCommands opts);
          [apply replace_subseq | apply subseq_refl].
      + destruct (trimCommandEndSignature opts); [|apply subseq_refl].
        destruct (commandEndSign opts) as [m|re f]; simpl.
        * apply replace_first_subseq.
        * apply replace_subseq. }
  split; [exact H | now apply subseq_length].
Qed.

End OnlyDeletes.

(** ** The detection pattern *)

Section Detection.

Context {K : Constants}.

Import RegexFacts.

Local Open Scope string_scope.

(** The escaped text matches what spells it, up to the ignored case. *)
Lemma lit_matches (f : flags) (m : string) :
  forall (u t : string) (p : option ascii) (k : cursor -> option cursor),
    same_text f m u = true ->
    exists q, rmatch f (lit m) (Cursor p (u ++ t)) k = k (Cursor q t).
Proof.
  induction m as [|a m IH]; intros [|b u] t p k H; simpl in H;
    try discriminate.
  - exists p. reflexivity.
  - apply andb_prop in H. destruct H as [Hc Hm].
    destruct (IH u t (Some b) k Hm) as [q Hq].
    exists q. simpl. unfold step. simpl. rewrite Hc. exact Hq.
Qed.

(** ... and nothing else. *)
Lemma lit_matches_only (f : flags) (m : string) :
  forall (c : cursor) (k : cursor -> option cursor) (e : cursor),
    rmatch f (lit m) c k = Some e ->
    exists u c', rest c = u ++ rest c' /\ same_text f m u = true /\
                 k c' = Some e.
Proof.
  induction m as [|a m IH]; intros c k e H; simpl in H.
  - exists "", c. repeat split; trivial.
  - unfold step in H. destruct (rest c) as [|b s] eqn:E; [discriminate|].
    destruct (char_eq f a b) eqn:Hc; [|discriminate].
    apply IH in H. destruct H as (u & c' & Hr & Hs & Hk). simpl in Hr.
    exists (String b u), c'. simpl. rewrite Hr, Hc, Hs.
    repeat split; trivial.
Qed.

(** X2.  The pattern of line 97, built for a string end marker, matches at
    a position exactly when the text there spells the end marker, the PIN
    sentinel or the cancelled sentinel, in any letter case: a match spans
    such a text, and every such text is matched.  The sentinels are taken
    literally, whatever characters they contain. *)
Theorem detection_pattern_any_case
        (opts : ExecuteCommandOptions) (m : string) :
  commandEndSign opts = PStr m ->
  exists re,
    commandEndOutputSignRegex opts = PRe re flags_gi /\
    (forall c e,
        exec_at flags_gi re c = Some e ->
        exists u, rest c = u ++ rest e /\
                  (same_text flags_gi m u = true \/
                   same_text flags_gi TotpAskForPin u = true \/
                   same_text flags_gi TotpCommandCancelled u = true)) /\
    (forall p u t,
        same_text flags_gi m u = true \/
        same_text flags_gi TotpAskForPin u = true \/
        same_text flags_gi TotpCommandCancelled u = true ->
        exec_at flags_gi re (Cursor p (u ++ t)) <> None).
Proof.
  intros Hm. unfold commandEndOutputSignRegex. rewrite Hm. simpl.
  eexists. split; [reflexivity|]. split.
  - intros c e H. unfold exec_at in H. simpl in H.
    destruct (rmatch flags_gi (lit m) c (fun e0 => Some e0)) as [e1|] eqn:E1.
    { injection H as <-. apply lit_matches_only in E1.
      destruct E1 as (u & c' & Hr & Hs & [= <-]). exists u. auto. }
    destruct (rmatch flags_gi (lit TotpAskForPin) c (fun e0 => Some e0))
      as [e2|] eqn:E2.
    { injection H as <-. apply lit_matches_only in E2.
      destruct E2 as (u & c' & Hr & Hs & [= <-]). exists u. auto. }
    apply lit_matches_only in H.
    destruct H as (u & c' & Hr & Hs & [= <-]). exists u. auto.
  - intros p u t H. unfold exec_at. simpl.
    destruct (rmatch flags_gi (lit m) (Cursor p (u ++ t))
                (fun e0 => Some e0)) as [e1|] eqn:E1; [discriminate|].
    destruct (rmatch flags_gi (lit TotpAskForPin) (Cursor p (u ++ t))
                (fun e0 => Some e0)) as [e2|] eqn:E2; [discriminate|].
    destruct H as [H|[H|H]].
    + destruct (lit_matches flags_gi m u t p (fun e0 => Some e0) H)
        as [q Hq]. congruence.
    + destruct (lit_matches flags_gi TotpAskForPin u t p
                  (fun e0 => Some e0) H) as [q Hq]. congruence.
    + destruct (lit_matches flags_gi TotpCommandCancelled u t p
                  (fun e0 => Some e0) H) as [q Hq]. congruence.
Qed.

End Detection.

(** ** More on the command executor *)

Section ExecutorMore.

Context {K : Constants} {D : Device}.

(** X3.  [executeCommand] resolves to [null] only when the loop is left
    with no response (absent or empty) or with a response that contains
    the cancelled sentinel.  A response that sanitisation empties gives the
    empty string, not [null]. *)
Theorem executeCommand_null_only_if
        (fuel : nat) (command : string) (options : PartialOptions)
        (s s' : State) :
  executeCommand fuel command options s = (Ok None, s') ->
  exists r,
    collect fuel command (assign executeCommandDefaultOptions options) s
    = (Ok r, s') /\
    (Js.truthy r = false \/ Js.has TotpCommandCancelled r = true).
Proof.
  unfold executeCommand, bind, ret.
  destruct (collect fuel command
              (assign executeCommandDefaultOptions options) s)
    as [[r|e|] s1]; try discriminate.
  intros H. injection H as H <-. exists r. split; [reflexivity|].
  unfold postProcess in H. destruct r as [t|]; [|now left].
  destruct (negb (Js.truthy (Some t))) eqn:Ht; simpl in H.
  - left. now apply negb_true_iff in Ht.
  - right. simpl. destruct (Js.includes TotpCommandCancelled t);
      [reflexivity | discriminate].
Qed.

(** X4.  When the read that skips the echoed first line fails (its
    deadline is one second), [executeCommand] fails with that error right
    away: the main read is not started and nothing is retried. *)
Theorem executeCommand_echo_read_fails
        (n : nat) (command : string) (options : PartialOptions)
        (s s0 : State) (p : Port) (e : error) (w2 : dev) :
  let opts := assign executeCommandDefaultOptions options in
  skipFirstLine opts = true ->
  getSerialPort n s = (Ok p, s0) ->
  dev_read p (PStr crlf) (Some 1000%Z) (dev_write p command (world s0))
  = (inl e, w2) ->
  executeCommand (S n) command options s
  = (Throw e,
     leave s0 [AWrite p command; ARead p (PStr crlf) (Some 1000%Z)] w2).
Proof.
  intros opts Hskip Hp Hr.
  pose proof (getSerialPort_holds _ _ _ _ Hp) as Hh.
  unfold executeCommand. fold opts. clearbody opts. unfold bind at 1.
  rewrite (collect_connected n command opts s s0 p Hp).
  simpl. unfold bind at 1.
  assert (Ha : attempt n command opts s0
               = (Throw e,
                  leave s0 [AWrite p command;
                            ARead p (PStr crlf) (Some 1000%Z)] w2)).
  { unfold attempt. destruct s0 as [h o l pk nx tr w].
    simpl in Hh, Hr. subst h.
    unfold bind, getSerialPort, get, writeAndDrain, readUntil, modify, ret,
      leave, log, set_world; simpl.
    rewrite Hskip. simpl. rewrite Hr. simpl.
    now rewrite <- !app_assoc. }
  rewrite Ha. reflexivity.
Qed.

(** A response that is absent, empty, or has the command-not-found
    sentinel is not accepted. *)
Lemma commandFound_refused (r : option string) :
  Js.truthy r = false \/ Js.has FlipperCliCommandNotFound r = true ->
  commandFound r = false.
Proof.
  intros [H|H]; unfold commandFound; rewrite H.
  - reflexivity.
  - apply andb_false_r.
Qed.

(** The loop on a device that keeps refusing: every unit of fuel is one
    exchange and one wait. *)
Lemma collect_while_refused
      (ready : dev -> Prop) (command : string)
      (opts : ExecuteCommandOptions) (p : Port) :
  (forall w, ready w ->
     exists w1 r w2,
       echo_skipped p command opts w = inr w1 /\
       dev_read p (commandEndOutputSignRegex opts) (Some 5000%Z) w1
       = (inr r, w2) /\
       (Js.truthy r = false \/
        Js.has FlipperCliCommandNotFound r = true) /\
       ready (dev_delay 1000 w2)) ->
  forall (fuel : nat) (s : State),
    held s = Some p -> ready (world s) ->
    exists tr w,
      collect fuel command opts s = (OutOfFuel, leave s tr w) /\
      count is_write tr = fuel /\ count is_delay tr = fuel /\ ready w.
Proof.
  intros Hstep fuel.
  induction fuel as [|n IH]; intros s Hh Hr.
  - exists [], (world s). simpl. unfold out_of_fuel, leave.
    rewrite app_nil_r. destruct s; repeat split; trivial.
  - destruct (Hstep _ Hr) as (w1 & r & w2 & He & Hread & Hf & Hr2).
    rewrite (collect_not_found n command opts s p w1 w2 r Hh He Hread
               (commandFound_refused r Hf)).
    set (x := exchange p command opts).
    destruct (IH (leave s (x ++ [ADelay 1000]) (dev_delay 1000 w2))
                 Hh Hr2) as (tr & w & Hcol & Hw & Hd & Hrw).
    exists ((x ++ [ADelay 1000]) ++ tr), w.
    rewrite Hcol, leave_leave. split; [reflexivity|].
    subst x. rewrite !count_app, count_exchange_write,
      count_exchange_delay, Hw, Hd.
    repeat split; trivial.
Qed.

(** X5.  While the main read keeps yielding a response that the loop does
    not accept (no response, an empty one, or one with the
    command-not-found sentinel), [executeCommand] never resolves and never
    fails: [k] units of fuel are [k] writes of the command and [k]
    one-second waits, and the loop is still running.  [ready] is any
    property of the device that such an exchange and the wait preserve. *)
Theorem executeCommand_retries_forever
        (ready : dev -> Prop) (command : string) (options : PartialOptions)
        (p : Port) :
  let opts := assign executeCommandDefaultOptions options in
  (forall w, ready w ->
     exists w1 r w2,
       echo_skipped p command opts w = inr w1 /\
       dev_read p (commandEndOutputSignRegex opts) (Some 5000%Z) w1
       = (inr r, w2) /\
       (Js.truthy r = false \/
        Js.has FlipperCliCommandNotFound r = true) /\
       ready (dev_delay 1000 w2)) ->
  forall (fuel : nat) (s : State),
    held s = Some p -> ready (world s) ->
    exists tr w,
      executeCommand fuel command options s = (OutOfFuel, leave s tr w) /\
      count is_write tr = fuel /\ count is_delay tr = fuel /\ ready w.
Proof.
  intros opts Hstep fuel s Hh Hr.
  destruct (collect_while_refused ready command opts p Hstep fuel s Hh Hr)
    as (tr & w & Hcol & Hrest).
  exists tr, w. split; [|exact Hrest].
  unfold executeCommand. fold opts. unfold bind. rewrite Hcol. reflexivity.
Qed.

Ltac all_traffic :=
  simpl; repeat (apply Forall_cons; [auto 10|]); apply Forall_nil.

(** One pass of the loop only talks to the held port, and leaves the
    session as it is, however the pass ends. *)
Lemma attempt_traffic (fuel : nat) (command : string)
      (opts : ExecuteCommandOptions) (s s' : State) (p : Port)
      (r : res (bool * option string)) :
  held s = Some p ->
  attempt fuel command opts s = (r, s') ->
  same_session s s' /\
  exists tr, trace s' = trace s ++ tr /\
             Forall (command_traffic p command opts) tr.
Proof.
  intros Hh E. unfold attempt in E.
  destruct s as [h o l pk nx tr w]. simpl in Hh. subst h.
  unfold bind, getSerialPort, get, writeAndDrain, readUntil, modify, ret,
    emit, delay, log, set_world in E; simpl in E.
  assert (Hfin : forall (r0 : res (bool * option string)) tr0 w0,
             (r0, {| held := Some p; observed := o; live := l; peak := pk;
                     next_id := nx; trace := tr ++ tr0; world := w0 |})
             = (r, s') ->
             Forall (command_traffic p command opts) tr0 ->
             same_session
               {| held := Some p; observed := o; live := l; peak := pk;
                  next_id := nx; trace := tr; world := w |} s' /\
             exists t, trace s' = tr ++ t /\
                       Forall (command_traffic p command opts) t).
  { intros r0 tr0 w0 [= <- <-] Hall. split.
    - unfold same_session; simpl. repeat split.
    - exists tr0. split; [reflexivity | exact Hall]. }
  unfold command_traffic in *.
  destruct (skipFirstLine opts); simpl in E.
  - destruct (dev_read p (PStr crlf) (Some 1000%Z) (dev_write p command w))
      as [[e|r0] w1]; simpl in E.
    { rewrite <- !app_assoc in E. eapply Hfin; [exact E|].
      all_traffic. }
    destruct (dev_read p (commandEndOutputSignRegex opts) (Some 5000%Z) w1)
      as [[e|r1] w2]; simpl in E.
    { rewrite <- !app_assoc in E. eapply Hfin; [exact E|].
      all_traffic. }
    destruct (commandFound r1); simpl in E.
    + destruct (Js.has TotpAskForPin r1); simpl in E.
      * destruct (dev_read p (commandEndOutputSignRegex opts) None w2)
          as [[e|r2] w3]; simpl in E;
          rewrite <- !app_assoc in E; (eapply Hfin; [exact E|]);
          all_traffic.
      * rewrite <- !app_assoc in E. eapply Hfin; [exact E|].
        all_traffic.
    + rewrite <- !app_assoc in E. eapply Hfin; [exact E|].
      all_traffic.
  - destruct (dev_read p (commandEndOutputSignRegex opts) (Some 5000%Z)
                       (dev_write p command w))
      as [[e|r1] w2]; simpl in E.
    { rewrite <- !app_assoc in E. eapply Hfin; [exact E|].
      all_traffic. }
    destruct (commandFound r1); simpl in E.
    + destruct (Js.has TotpAskForPin r1); simpl in E.
      * destruct (dev_read p (commandEndOutputSignRegex opts) None w2)
          as [[e|r2] w3]; simpl in E;
          rewrite <- !app_assoc in E; (eapply Hfin; [exact E|]);
          all_traffic.
      * rewrite <- !app_assoc in E. eapply Hfin; [exact E|].
        all_traffic.
    + rewrite <- !app_assoc in E. eapply Hfin; [exact E|].
      all_traffic.
Qed.

Lemma collect_traffic (command : string) (opts : ExecuteCommandOptions)
      (p : Port) (fuel : nat) :
  forall (s s' : State) (r : res (option string)),
    held s = Some p ->
    collect fuel command opts s = (r, s') ->
    same_session s s' /\
    exists tr, trace s' = trace s ++ tr /\
               Forall (command_traffic p command opts) tr.
Proof.
  induction fuel as [|n IH]; intros s s' r Hh E; simpl in E.
  - injection E as <- <-. split.
    + unfold same_session. repeat split.
    + exists []. split; [now rewrite app_nil_r | constructor].
  - unfold bind in E.
    destruct (attempt n command opts s) as [ra s1] eqn:Ea.
    destruct (attempt_traffic n command opts s s1 p ra Hh Ea)
      as [Hs (t1 & Ht1 & Hf1)].
    assert (Hstop : (r, s') = (r, s1) ->
              same_session s s' /\
              exists tr, trace s' = trace s ++ tr /\
                         Forall (command_traffic p command opts) tr).
    { intros [= ->]. split; [exact Hs|]. exists t1. split; assumption. }
    destruct ra as [[found resp]|e|]; simpl in E.
    + destruct found.
      * injection E as <- <-. apply Hstop. reflexivity.
      * destruct Hs as (S1 & S2 & S3 & S4 & S5).
        assert (Hh1 : held s1 = Some p) by congruence.
        destruct (IH s1 s' r Hh1 E) as [Hs2 (t2 & Ht2 & Hf2)].
        destruct Hs2 as (T1 & T2 & T3 & T4 & T5).
        split; [unfold same_session; repeat split; congruence|].
        exists (t1 ++ t2). split.
        -- rewrite Ht2, Ht1. now rewrite app_assoc.
        -- apply Forall_app. split; assumption.
    + injection E as <- <-. apply Hstop. reflexivity.
    + injection E as <- <-. apply Hstop. reflexivity.
Qed.

(** X6.  In an execution during which the channel of the held transport
    does not close (the model runs no close listener inside
    [executeCommand]; in the program one could run while a read or a wait
    is pending, and clear the held transport): with a transport in hand,
    whatever [executeCommand] does and however it ends (result, error, or
    still retrying), it only writes the command to that port, reads from
    it, waits a second between attempts and emits [pin-requested]; it
    never opens, closes or replaces the transport, and the session is the
    same afterwards. *)
Theorem executeCommand_keeps_transport
        (fuel : nat) (command : string) (options : PartialOptions)
        (s : State) (p : Port) :
  held s = Some p ->
  let s' := snd (executeCommand fuel command options s) in
  let opts := assign executeCommandDefaultOptions options in
  same_session s s' /\
  exists tr, trace s' = trace s ++ tr /\
             Forall (command_traffic p command opts) tr.
Proof.
  intros Hh s' opts. subst s'. unfold executeCommand. fold opts.
  unfold bind, ret.
  destruct (collect fuel command opts s) as [r s1] eqn:E.
  pose proof (collect_traffic command opts p fuel s s1 r Hh E) as H.
  destruct r as [t|e|]; exact H.
Qed.

(** X7.  [executeCommand] acquires the transport before anything else: on
    a client that holds none it is the connection sequence followed by the
    execution on the connected client, and as long as the connection
    sequence has not finished the command is not executed. *)
Theorem executeCommand_connects_first
        (n : nat) (command : string) (options : PartialOptions)
        (s : State) :
  (forall p s0, getSerialPort n s = (Ok p, s0) ->
                executeCommand (S n) command options s
                = executeCommand (S n) command options s0) /\
  (forall s1, getSerialPort n s = (OutOfFuel, s1) ->
              executeCommand (S n) command options s = (OutOfFuel, s1)).
Proof.
  split.
  - intros p s0 Hp. unfold executeCommand, bind.
    now rewrite (collect_connected n command _ s s0 p Hp).
  - intros s1 Hp. unfold executeCommand. unfold bind at 1. simpl.
    unfold bind at 1. unfold attempt. unfold bind at 1.
    rewrite Hp. reflexivity.
Qed.

End ExecutorMore.

(** ** More on discovery and the session *)

Section SessionMore.

Context {K : Constants} {D : Device}.

Lemma leave_same (s : State) : leave s [] (world s) = s.
Proof. destruct s; unfold leave; simpl. now rewrite app_nil_r. Qed.

(** Polls that show no matching endpoint only use up fuel. *)
Lemma waitForFlipperZeroDevice_absent (k : nat) :
  forall (s : State) (w' : dev),
    absent_for k (world s) = Some w' ->
    forall fuel,
      waitForFlipperZeroDevice (k + fuel) s
      = waitForFlipperZeroDevice fuel (leave s (polls k) w').
Proof.
  induction k as [|k IH]; intros s w' Ha fuel; simpl in Ha.
  - injection Ha as <-. now rewrite leave_same.
  - destruct (dev_list (world s)) as [l w1] eqn:El.
    destruct (findDevice l) eqn:Ef; [discriminate|].
    simpl. unfold bind at 1.
    unfold getFlipperZeroDevice, bind, list_ports, ret.
    rewrite El, Ef. unfold delay, modify.
    set (s2 := set_world _ _).
    rewrite (IH s2 w' Ha fuel). f_equal.
    unfold leave, s2; simpl. now rewrite <- !app_assoc.
Qed.

(** The poll that shows the device ends the wait. *)
Lemma waitForFlipperZeroDevice_after_polls
        (k : nat) (s : State) (w0 w1 : dev) (l : list PortInfo)
        (d : PortInfo) :
  absent_for k (world s) = Some w0 ->
  dev_list w0 = (l, w1) ->
  findDevice l = Some d ->
  (forall n, waitForFlipperZeroDevice (k + S n) s
             = (Ok d, leave s (polls k ++ [AList]) w1)) /\
  waitForFlipperZeroDevice k s = (OutOfFuel, leave s (polls k) w0).
Proof.
  intros Ha El Ef. split.
  - intros n. rewrite (waitForFlipperZeroDevice_absent k s w0 Ha).
    simpl. unfold bind, getFlipperZeroDevice, bind, list_ports, ret.
    simpl. rewrite El, Ef. f_equal.
    unfold leave, set_world, log; simpl. now rewrite <- !app_assoc.
  - pose proof (waitForFlipperZeroDevice_absent k s w0 Ha 0) as H.
    rewrite Nat.add_0_r in H. rewrite H. reflexivity.
Qed.

(** X8.  [waitForFlipperZeroDevice] resolves as soon as the enumeration
    shows a matching endpoint: after [k] polls without one, one second
    apart, the poll that shows endpoint [d] first resolves to [d], with no
    further wait; until then it is still polling.  It has no deadline of
    its own. *)
Theorem waitForFlipperZeroDevice_resolves
        (k : nat) (s : State) (w0 w1 : dev) (l : list PortInfo)
        (d : PortInfo) :
  absent_for k (world s) = Some w0 ->
  dev_list w0 = (l, w1) ->
  findDevice l = Some d ->
  (forall n, waitForFlipperZeroDevice (k + S n) s
             = (Ok d, leave s (polls k ++ [AList]) w1)) /\
  waitForFlipperZeroDevice k s = (OutOfFuel, leave s (polls k) w0).
Proof.
  intros Ha El Ef.
  destruct (waitForFlipperZeroDevice_after_polls k s w0 w1 l d Ha El Ef)
    as [Hfound Hnot].
  split; [exact Hfound | exact Hnot].
Qed.

(** X9.  The connection in one pass: on a client that holds no transport,
    when the device shows up after [k] polls, opens and answers the probe,
    [getSerialPort] resolves, given the fuel for the polls, to a new port
    for that endpoint at 115200 baud.  That port is then held, open and
    observed, and the events are one [connecting] and one [connected]. *)
Theorem getSerialPort_connects
        (k : nat) (s : State) (w0 w1 w2 w3 : dev) (l : list PortInfo)
        (d : PortInfo) (r : option string) :
  held s = None ->
  absent_for k (world s) = Some w0 ->
  dev_list w0 = (l, w1) ->
  findDevice l = Some d ->
  dev_open (port_for s d) w1 = (None, w2) ->
  dev_read (port_for s d) (PStr FlipperCliEndOfCommand) (Some 1000%Z) w2
  = (inr r, w3) ->
  forall n,
    getSerialPort (S (k + S n)) s
    = (Ok (port_for s d),
       {| held := Some (port_for s d);
          observed := port_for s d :: observed s;
          live := port_for s d :: live s;
          peak := Nat.max (peak s) (S (List.length (live s)));
          next_id := S (next_id s);
          trace := trace s
                   ++ AEmit Connecting
                   :: polls k
                   ++ [AList; AOpen (port_for s d); probe (port_for s d);
                       AOnClose (port_for s d); AEmit Connected];
          world := w3 |}).
Proof.
  intros Hh Ha El Ef Ho Hr n.
  unfold getSerialPort, bind, get. rewrite Hh.
  simpl connect_loop. unfold bind at 1. unfold connect_once.
  unfold bind at 1. unfold emit, modify.
  unfold discover_open_probe. unfold bind at 1.
  destruct (waitForFlipperZeroDevice_after_polls
              k (log (AEmit Connecting) s) w0 w1 l d Ha El Ef) as [Hw _].
  rewrite (Hw n).
  unfold bind, new_SerialPort, try_catch, openAsync, readUntil, on_close,
    modify, ret.
  unfold port_for in *. destruct s as [h o lv pk nx tr w].
  simpl in *. rewrite Ho. simpl. rewrite Hr.
  cbv beta iota delta
      [probe leave log set_held set_observed set_live set_world
       set_next_id held observed live peak next_id trace world].
  f_equal. f_equal. rewrite <- !app_assoc. reflexivity.
Qed.

(** X10.  Once [getSerialPort] has resolved, calling it again resolves to
    the same port and does nothing: no event, no enumeration, no open. *)
Theorem getSerialPort_again
        (fuel fuel' : nat) (s s' : State) (p : Port) :
  getSerialPort fuel s = (Ok p, s') ->
  getSerialPort fuel' s' = (Ok p, s').
Proof.
  intros H. apply getSerialPort_held.
  eapply getSerialPort_holds. exact H.
Qed.

(** X11.  Once [waitForDevice] has resolved a transport is held, and
    waiting again does nothing. *)
Theorem waitForDevice_again (fuel fuel' : nat) (s s' : State) :
  waitForDevice fuel s = (Ok tt, s') ->
  (exists p, held s' = Some p) /\
  waitForDevice fuel' s' = (Ok tt, s').
Proof.
  intros H. unfold waitForDevice in H. unfold bind at 1 in H.
  unfold get in H.
  assert (Hh : exists p, held s' = Some p).
  { destruct (held s) as [q|] eqn:Hq.
    - injection H as <-. now exists q.
    - unfold bind in H.
      destruct (getSerialPort fuel s) as [[p|e|] s1] eqn:E;
        try discriminate.
      injection H as <-. exists p.
      eapply getSerialPort_holds. exact E. }
  split; [exact Hh|]. destruct Hh as [p Hp].
  unfold waitForDevice, bind, get. rewrite Hp. reflexivity.
Qed.

(** X12.  [close] ends the session: afterwards no transport is held and
    none is open, so that a second [close] closes nothing and only emits
    [closed] again. *)
Theorem close_ends_session (s : State) :
  session_ok s ->
  held (snd (close s)) = None /\
  live (snd (close s)) = [] /\
  close (snd (close s)) = (Ok tt, log (AEmit Closed) (snd (close s))).
Proof.
  intros Hs.
  assert (H : held (snd (close s)) = None /\ live (snd (close s)) = []).
  { pose proof (preserves_close s Hs) as (_ & Hl & _).
    assert (Hh : held (snd (close s)) = None).
    { destruct Hs as (Hpk & Hlv & Ho).
      unfold close, bind, get, closeAsync, emit, modify, ret, port_closed.
      destruct (held s) as [p|] eqn:Hp; simpl; [|exact Hp].
      specialize (Ho p eq_refl). unfold is_observed in *. simpl.
      rewrite Ho. reflexivity. }
    split; [exact Hh|]. rewrite Hl, Hh. reflexivity. }
  destruct H as [Hh Hl]. repeat split; trivial.
  unfold close at 1. unfold bind, get. rewrite Hh. reflexivity.
Qed.

Lemma connect_loop_grows (fuel : nat) (s s' : State) (r : res Port) :
  held s = None ->
  connect_loop fuel s = (r, s') ->
  exists tr, trace s' = trace s ++ tr.
Proof.
  intros Hh E. apply connect_loop_shape in E; [|exact Hh].
  destruct E as (_ & _ & _ & passes & _ & Hr).
  destruct r as [p|e|]; [| contradiction |].
  - destruct Hr as (_ & k & Hk). eexists. exact Hk.
  - destruct Hr as (t & _ & Hk). eexists. exact Hk.
Qed.

(** X13.  When the channel of the held transport goes away, the client
    holds nothing any more, and the next [getSerialPort] does not hand out
    the dead port: it starts a connection sequence, with [connecting] as
    its first step. *)
Theorem channel_closed_then_reconnect
        (fuel n : nat) (s : State) (p : Port) :
  session_ok s ->
  held s = Some p ->
  let s1 := perform fuel (ChannelClosed p) s in
  held s1 = None /\ live s1 = [] /\ trace s1 = trace s /\
  exists tr,
    trace (snd (getSerialPort (S n) s1))
    = trace s ++ AEmit Connecting :: tr.
Proof.
  intros Hs Hh s1.
  assert (H1 : held s1 = None /\ live s1 = [] /\ trace s1 = trace s).
  { subst s1. destruct Hs as (Hpk & Hl & Ho). rewrite Hh in Hl.
    specialize (Ho p Hh). simpl. rewrite Hl. simpl.
    rewrite same_port_refl. simpl. unfold port_closed.
    unfold is_observed in *. simpl. rewrite Ho, Hl. simpl.
    unfold without. simpl. rewrite same_port_refl. simpl.
    repeat split. }
  destruct H1 as (G1 & G2 & G3). repeat split; trivial.
  unfold getSerialPort, bind, get. rewrite G1.
  simpl connect_loop. unfold bind at 1. unfold connect_once.
  unfold bind at 1. unfold emit, modify.
  set (s2 := log (AEmit Connecting) s1).
  destruct (discover_open_probe n s2) as [r1 s3] eqn:E1.
  pose proof (discover_open_probe_shape n s2 s3 r1 G1 E1)
    as (F1 & _ & _ & F4).
  assert (Hg : exists t, trace s3 = trace s2 ++ t).
  { destruct r1 as [[q|]|e|]; [| | contradiction |].
    - destruct F4 as (_ & k & Hk). eexists. exact Hk.
    - destruct F4 as (k & q & _ & [Hk|Hk]); eexists; exact Hk.
    - destruct F4 as (k & Hk). eexists. exact Hk. }
  destruct Hg as [t Ht].
  change (trace s2) with (trace s1 ++ [AEmit Connecting]) in Ht.
  rewrite G3 in Ht.
  destruct r1 as [[q|]|e|]; simpl.
  - exists (t ++ [AOnClose q; AEmit Connected]).
    rewrite Ht. now rewrite <- !app_assoc.
  - destruct (connect_loop n s3) as [r2 s4] eqn:E2.
    destruct (connect_loop_grows n s3 s4 r2 F1 E2) as [t2 Ht2].
    destruct r2 as [q|e|]; simpl.
    + exists (t ++ t2 ++ [AOnClose q; AEmit Connected]).
      rewrite Ht2, Ht. now rewrite <- !app_assoc.
    + exists (t ++ t2). rewrite Ht2, Ht. now rewrite <- !app_assoc.
    + exists (t ++ t2). rewrite Ht2, Ht. now rewrite <- !app_assoc.
  - exists t. rewrite Ht. now rewrite <- !app_assoc.
  - exists t. rewrite Ht. now rewrite <- !app_assoc.
Qed.

(** X14.  [listTokens] turns the absence of a result into the empty list:
    when the loop of the listing command is left with no response or with
    a cancelled one, it resolves to the empty list and the parser is not
    consulted. *)
Theorem listTokens_no_response
        (Row : Type) (parseFromString : string -> list Row)
        (fuel : nat) (s s' : State) (r : option string) :
  collect fuel (TotpCommand ++ " ls" ++ String cr "")
          (assign executeCommandDefaultOptions no_options) s
  = (Ok r, s') ->
  Js.truthy r = false \/ Js.has TotpCommandCancelled r = true ->
  listTokens Row parseFromString fuel s = (Ok [], s').
Proof.
  intros Hc Hr. unfold listTokens, executeCommand, bind.
  rewrite Hc. unfold ret, postProcess.
  destruct r as [t|]; [|reflexivity].
  destruct Hr as [Hr|Hr].
  - rewrite Hr. reflexivity.
  - simpl in Hr. rewrite Hr, orb_true_r. reflexivity.
Qed.

(** X15.  Endpoints that lack a vendor or a product identifier never
    match: leaving them out of the enumeration does not change what
    [findDevice] finds. *)
Theorem findDevice_skips_incomplete (l : list PortInfo) :
  findDevice
    (filter (fun p => match vendorId p, productId p with
                      | Some _, Some _ => true
                      | _, _ => false
                      end) l)
  = findDevice l.
Proof.
  unfold findDevice. induction l as [|p l IH]; simpl; [reflexivity|].
  destruct (is_flipper p) eqn:Hf.
  - pose proof Hf as Hm. apply is_flipper_true in Hm.
    destruct Hm as [Hv Hp]. rewrite Hv, Hp. simpl. now rewrite Hf.
  - destruct (vendorId p), (productId p); simpl; rewrite ?Hf; exact IH.
Qed.

End SessionMore.

(** ** The connection sequence, pass by pass *)

Section Passes.

Context {K : Constants} {D : Device}.

(** A connection sequence with fuel left starts with [connecting]. *)
Lemma getSerialPort_starts_connecting (n : nat) (s : State) :
  held s = None ->
  exists tr,
    trace (snd (getSerialPort (S n) s)) = trace s ++ AEmit Connecting :: tr.
Proof.
  intros G1.
  unfold getSerialPort, bind, get. rewrite G1.
  simpl connect_loop. unfold bind at 1. unfold connect_once.
  unfold bind at 1. unfold emit, modify.
  set (s2 := log (AEmit Connecting) s).
  destruct (discover_open_probe n s2) as [r1 s3] eqn:E1.
  pose proof (discover_open_probe_shape n s2 s3 r1 G1 E1)
    as (F1 & _ & _ & F4).
  assert (Hg : exists t, trace s3 = trace s2 ++ t).
  { destruct r1 as [[q|]|e|]; [| | contradiction |].
    - destruct F4 as (_ & k & Hk). eexists. exact Hk.
    - destruct F4 as (k & q & _ & [Hk|Hk]); eexists; exact Hk.
    - destruct F4 as (k & Hk). eexists. exact Hk. }
  destruct Hg as [t Ht].
  change (trace s2) with (trace s ++ [AEmit Connecting]) in Ht.
  destruct r1 as [[q|]|e|]; simpl.
  - exists (t ++ [AOnClose q; AEmit Connected]).
    rewrite Ht. now rewrite <- !app_assoc.
  - destruct (connect_loop n s3) as [r2 s4] eqn:E2.
    destruct (connect_loop_grows n s3 s4 r2 F1 E2) as [t2 Ht2].
    destruct r2 as [q|e|]; simpl.
    + exists (t ++ t2 ++ [AOnClose q; AEmit Connected]).
      rewrite Ht2, Ht. now rewrite <- !app_assoc.
    + exists (t ++ t2). rewrite Ht2, Ht. now rewrite <- !app_assoc.
    + exists (t ++ t2). rewrite Ht2, Ht. now rewrite <- !app_assoc.
  - exists t. rewrite Ht. now rewrite <- !app_assoc.
  - exists t. rewrite Ht. now rewrite <- !app_assoc.
Qed.

(** A pass that ends without a transport is followed by the whole loop
    body again. *)
Lemma getSerialPort_retry (f : nat) (s s1 : State) :
  held s = None ->
  held s1 = None ->
  connect_once f s = (Ok None, s1) ->
  getSerialPort (S f) s = getSerialPort f s1.
Proof.
  intros Hh Hh1 Hpass.
  unfold getSerialPort, bind, get. rewrite Hh, Hh1.
  simpl connect_loop. unfold bind at 1. rewrite Hpass. reflexivity.
Qed.

Section DevicePresent.

Variables (k : nat) (s : State) (w0 w1 : dev) (l : list PortInfo)
          (d : PortInfo).
Hypothesis Hheld : held s = None.
Hypothesis Habsent : absent_for k (world s) = Some w0.
Hypothesis Hlist : dev_list w0 = (l, w1).
Hypothesis Hfind : findDevice l = Some d.

(** The pass whose open fails. *)
Lemma connect_once_open_fails (e : error) (w2 : dev) (n : nat) :
  dev_open (port_for s d) w1 = (Some e, w2) ->
  connect_once (k + S n) s
  = (Ok None, after_open_failure s k d (dev_delay 1000 w2)).
Proof.
  intros Ho.
  unfold connect_once. unfold bind at 1. unfold emit, modify.
  unfold discover_open_probe. unfold bind at 1.
  destruct (waitForFlipperZeroDevice_after_polls
              k (log (AEmit Connecting) s) w0 w1 l d Habsent Hlist Hfind)
    as [Hw _].
  rewrite (Hw n).
  unfold bind, new_SerialPort, try_catch, openAsync, delay, modify, ret.
  unfold after_open_failure, port_for in *.
  destruct s as [h o lv pk nx tr w].
  simpl in *. rewrite Ho. simpl.
  cbv beta iota delta
      [probe leave log set_held set_observed set_live set_world
       set_next_id held observed live peak next_id trace world].
  subst h. f_equal. f_equal. rewrite <- !app_assoc. reflexivity.
Qed.

(** The pass whose probe fails. *)
Lemma connect_once_probe_fails (e : error) (w2 w3 : dev) (n : nat) :
  dev_open (port_for s d) w1 = (None, w2) ->
  dev_read (port_for s d) (PStr FlipperCliEndOfCommand) (Some 1000%Z) w2
  = (inl e, w3) ->
  connect_once (k + S n) s
  = (Ok None,
     after_probe_failure s k d
       (dev_delay 1000 (dev_close (port_for s d) w3))).
Proof.
  intros Ho Hr.
  unfold connect_once. unfold bind at 1. unfold emit, modify.
  unfold discover_open_probe. unfold bind at 1.
  destruct (waitForFlipperZeroDevice_after_polls
              k (log (AEmit Connecting) s) w0 w1 l d Habsent Hlist Hfind)
    as [Hw _].
  rewrite (Hw n).
  unfold bind, new_SerialPort, try_catch, openAsync, readUntil, closeAsync,
    delay, modify, ret.
  unfold after_probe_failure, port_for in *.
  destruct s as [h o lv pk nx tr w].
  simpl in *. rewrite Ho. simpl. rewrite Hr.
  unfold port_closed, is_observed, without.
  cbv beta iota delta
      [probe leave log set_held set_observed set_live set_world
       set_next_id held observed live peak next_id trace world].
  simpl filter. rewrite !same_port_refl. change (negb true) with false.
  cbv beta iota.
  subst h.
  destruct (existsb _ o); cbv beta iota.
  all: f_equal; f_equal.
  all: try (rewrite <- !app_assoc; reflexivity).
  all: pose proof (filter_length_le
                     (fun q => negb (same_port
                        {| port_id := nx; port_path := path d;
                           port_baud := 115200 |} q)) lv) as Hle;
       simpl List.length; lia.
Qed.

(** The pass that connects. *)
Lemma getSerialPort_pass_connects (r : option string) (w2 w3 : dev)
      (n : nat) :
  dev_open (port_for s d) w1 = (None, w2) ->
  dev_read (port_for s d) (PStr FlipperCliEndOfCommand) (Some 1000%Z) w2
  = (inr r, w3) ->
  getSerialPort (S (k + S n)) s
  = (Ok (port_for s d), after_connection s k d w3).
Proof.
  intros Ho Hr.
  unfold getSerialPort, bind, get. rewrite Hheld.
  simpl connect_loop. unfold bind at 1. unfold connect_once.
  unfold bind at 1. unfold emit, modify.
  unfold discover_open_probe. unfold bind at 1.
  destruct (waitForFlipperZeroDevice_after_polls
              k (log (AEmit Connecting) s) w0 w1 l d Habsent Hlist Hfind)
    as [Hw _].
  rewrite (Hw n).
  unfold bind, new_SerialPort, try_catch, openAsync, readUntil, on_close,
    modify, ret.
  unfold after_connection, port_for in *.
  destruct s as [h o lv pk nx tr w].
  simpl in *. rewrite Ho. simpl. rewrite Hr.
  cbv beta iota delta
      [probe leave log set_held set_observed set_live set_world
       set_next_id held observed live peak next_id trace world].
  f_equal. f_equal. rewrite <- !app_assoc. reflexivity.
Qed.

(** As long as the device does not show up, the call only polls. *)
Lemma getSerialPort_still_polling :
  getSerialPort (S k) s
  = (OutOfFuel, leave s (AEmit Connecting :: polls k) w0).
Proof.
  unfold getSerialPort, bind, get. rewrite Hheld.
  simpl connect_loop. unfold bind at 1. unfold connect_once.
  unfold bind at 1. unfold emit, modify.
  unfold discover_open_probe. unfold bind at 1.
  destruct (waitForFlipperZeroDevice_after_polls
              k (log (AEmit Connecting) s) w0 w1 l d Habsent Hlist Hfind)
    as [_ Hw].
  rewrite Hw. f_equal.
  destruct s as [h o lv pk nx tr w]. unfold leave, log. simpl.
  now rewrite <- !app_assoc.
Qed.

End DevicePresent.

(** C1, as the code has it, pass by pass.  [getSerialPort] is called on a
    client that holds no transport; the device shows up at the poll after
    [k] polls without it, as endpoint [d], and [p] is the port made for
    that endpoint at 115200 baud.  Up to that poll the call has emitted
    [connecting] and polled.  What happens next is decided by what the
    open and the probe (a read up to the end-of-response marker with a
    deadline of one second) return:
    - the open fails: the port is dropped, never having been open, one
      second is waited, and the call goes on as a call on the client so
      left, which holds nothing, and whose first step is [connecting]
      again: the retry starts at step 1, not at the discovery;
    - the open succeeds and the probe fails: the port is closed and
      dropped, one second is waited, and the call goes on in the same way;
    - both succeed: the call resolves to [p], with the closure observer
      registered, [p] stored, and [connected] emitted last; when the
      channel of [p] closes afterwards the client holds nothing.
    No error of the open or the probe reaches the caller. *)
Theorem getSerialPort_pass_by_pass
        (k : nat) (s : State) (w0 w1 : dev) (l : list PortInfo)
        (d : PortInfo) :
  held s = None ->
  absent_for k (world s) = Some w0 ->
  dev_list w0 = (l, w1) ->
  findDevice l = Some d ->
  let p := port_for s d in
  let marker := PStr FlipperCliEndOfCommand in
  let restarts := fun (n : nat) (s1 : State) =>
    held s1 = None /\
    getSerialPort (S (k + S n)) s = getSerialPort (k + S n) s1 /\
    exists tr,
      trace (snd (getSerialPort (k + S n) s1))
      = trace s1 ++ AEmit Connecting :: tr in
  (port_baud p = 115200%Z /\ port_path p = path d /\
   matches_constants d) /\
  getSerialPort (S k) s
  = (OutOfFuel, leave s (AEmit Connecting :: polls k) w0) /\
  (forall e w2,
     dev_open p w1 = (Some e, w2) ->
     forall n,
       restarts n (after_open_failure s k d (dev_delay 1000 w2))) /\
  (forall w2 e w3,
     dev_open p w1 = (None, w2) ->
     dev_read p marker (Some 1000%Z) w2 = (inl e, w3) ->
     forall n,
       restarts n
         (after_probe_failure s k d (dev_delay 1000 (dev_close p w3)))) /\
  (forall w2 r w3,
     dev_open p w1 = (None, w2) ->
     dev_read p marker (Some 1000%Z) w2 = (inr r, w3) ->
     (forall n,
        getSerialPort (S (k + S n)) s
        = (Ok p, after_connection s k d w3)) /\
     held (port_closed p (after_connection s k d w3)) = None) /\
  (forall fuel e, fst (getSerialPort fuel s) <> Throw e).
Proof.
  intros Hh Ha El Ef p marker restarts.
  split; [|split; [|split; [|split; [|split]]]].
  - split; [reflexivity|]. split; [reflexivity|].
    exact (findDevice_matches l d Ef).
  - exact (getSerialPort_still_polling k s w0 w1 l d Hh Ha El Ef).
  - intros e w2 Ho n. unfold restarts.
    split; [reflexivity|]. split.
    + apply getSerialPort_retry; [exact Hh | reflexivity|].
      exact (connect_once_open_fails k s w0 w1 l d Hh Ha El Ef e w2 n Ho).
    + rewrite Nat.add_succ_r.
      apply getSerialPort_starts_connecting. reflexivity.
  - intros w2 e w3 Ho Hr n. unfold restarts.
    split; [reflexivity|]. split.
    + apply getSerialPort_retry; [exact Hh | reflexivity|].
      exact (connect_once_probe_fails k s w0 w1 l d Hh Ha El Ef
               e w2 w3 n Ho Hr).
    + rewrite Nat.add_succ_r.
      apply getSerialPort_starts_connecting. reflexivity.
  - intros w2 r w3 Ho Hr. split.
    + intros n.
      exact (getSerialPort_pass_connects k s w0 w1 l d Hh Ha El Ef
               r w2 w3 n Ho Hr).
    + assert (Ho' : is_observed p
                      (set_live (without p (live (after_connection s k d w3)))
                         (after_connection s k d w3)) = true).
      { unfold is_observed.
        change (same_port p p || existsb (same_port p) (observed s) = true).
        now rewrite same_port_refl. }
      unfold port_closed. cbv zeta. rewrite Ho'. reflexivity.
  - intros fuel e Heq.
    destruct (getSerialPort_shape fuel s Hh) as (passes & last & _ & _ & Hr).
    rewrite Heq in Hr. exact Hr.
Qed.

End Passes.

(** ** Icon lookup *)

Module IconFacts.

Import Icons.

Local Open Scope string_scope.

Lemma lower_idem (c : ascii) : lower (lower c) = lower c.
Proof. destruct c as [[] [] [] [] [] [] [] []]; reflexivity. Qed.

Lemma toLowerCase_app (a b : string) :
  toLowerCase (a ++ b) = toLowerCase a ++ toLowerCase b.
Proof. induction a as [|c a IH]; simpl; [|rewrite IH]; reflexivity. Qed.

Lemma toLowerCase_idem (s : string) :
  toLowerCase (toLowerCase s) = toLowerCase s.
Proof.
  induction s as [|c s IH]; simpl; [|rewrite lower_idem, IH]; reflexivity.
Qed.

Lemma startsWith_self_app (m t : string) : Js.startsWith m (m ++ t) = true.
Proof.
  induction m as [|c m IH]; simpl; [|rewrite Ascii.eqb_refl]; trivial.
Qed.

Lemma includes_start (m s : string) :
  Js.startsWith m s = true -> Js.includes m s = true.
Proof. destruct s; simpl; intros ->; reflexivity. Qed.

(** [includes] is "occurs somewhere". *)
Lemma includes_split (m s : string) :
  Js.includes m s = true <-> exists a b, s = a ++ m ++ b.
Proof.
  split.
  - induction s as [|c s IH]; simpl.
    + destruct (Js.startsWith m "") eqn:E; [|discriminate]. intros _.
      apply JsFacts.startsWith_split in E. exists "". eexists. exact E.
    + destruct (Js.startsWith m (String c s)) eqn:E.
      * intros _. apply JsFacts.startsWith_split in E.
        exists "". eexists. exact E.
      * intros H. destruct (IH H) as (a & b & ->).
        exists (String c a), b. reflexivity.
  - intros (a & b & ->). induction a as [|c a IH]; simpl.
    + apply includes_start, startsWith_self_app.
    + rewrite IH. now destruct (Js.startsWith m (String c (a ++ m ++ b))).
Qed.

Lemma includes_trans (a b c : string) :
  Js.includes a b = true -> Js.includes b c = true ->
  Js.includes a c = true.
Proof.
  rewrite !includes_split. intros (p & q & ->) (p' & q' & ->).
  exists (p' ++ p), (q ++ q').
  now rewrite !RegexFacts.app_assoc_string.
Qed.

Lemma eqb_includes (i n : string) :
  String.eqb i n = true -> Js.includes i n = true.
Proof.
  intros H. apply String.eqb_eq in H. subst n.
  apply includes_split. exists "", "". simpl.
  induction i as [|c i IH]; simpl; [|rewrite <- IH]; reflexivity.
Qed.

(** The equality test of the lookup adds nothing to [includes]. *)
Lemma issuer_matches_includes (n i : string) :
  issuer_matches n i = Js.includes i n.
Proof.
  unfold issuer_matches. destruct (String.eqb i n) eqn:E; [|reflexivity].
  simpl. symmetry. now apply eqb_includes.
Qed.

Lemma icon_matches_spec (n : string) (p : IconMeta) :
  icon_matches n p = true <->
  exists i, In i (issuer p) /\ Js.includes i n = true.
Proof.
  unfold icon_matches. rewrite existsb_exists.
  split; intros (i & Hi & H); exists i; split; trivial;
    now rewrite issuer_matches_includes in *.
Qed.

Lemma icon_matches_none (n : string) (p : IconMeta) :
  icon_matches n p = false ->
  forall j, In j (issuer p) -> Js.includes j n = false.
Proof.
  intros H j Hj. destruct (Js.includes j n) eqn:E; [|reflexivity].
  assert (Ht : icon_matches n p = true).
  { apply icon_matches_spec. now exists j. }
  congruence.
Qed.

(** X16.  [findIcon] returns the file name of the first entry of the
    catalog, in catalog order, one of whose issuers occurs in the name
    once lower-cased, and nothing when no entry has such an issuer.  The
    equality test of the source is covered by the inclusion test. *)
Theorem findIcon_first_match (icons : list IconMeta) (name : string) :
  let n := toLowerCase name in
  match find (icon_matches n) icons with
  | Some p =>
      findIcon icons name = Some (filename p) /\
      exists before after i,
        icons = (before ++ p :: after)%list /\
        In i (issuer p) /\ Js.includes i n = true /\
        forall q, In q before ->
                  forall j, In j (issuer q) -> Js.includes j n = false
  | None =>
      findIcon icons name = None /\
      forall q, In q icons ->
                forall j, In j (issuer q) -> Js.includes j n = false
  end.
Proof.
  intros n. unfold findIcon. fold n.
  pose proof (find_first (icon_matches n) icons) as H.
  destruct (find (icon_matches n) icons) as [p|].
  - split; [reflexivity|].
    destruct H as (l1 & l2 & E & Hp & Hl1).
    apply icon_matches_spec in Hp. destruct Hp as (i & Hi & Hinc).
    exists l1, l2, i. repeat split; trivial.
    intros q Hq. apply icon_matches_none. auto.
  - split; [reflexivity|].
    intros q Hq. apply icon_matches_none. auto.
Qed.

(** X17.  The letter case of the name does not matter: the lookup of a
    name and of its lower-cased form give the same result. *)
Theorem findIcon_ignores_case (icons : list IconMeta) (name : string) :
  findIcon icons (toLowerCase name) = findIcon icons name.
Proof. unfold findIcon. now rewrite toLowerCase_idem. Qed.

(** X18.  For names of code units below 256, where lower-casing works
    unit by unit and so goes through concatenation: a name that has an
    icon keeps having one when text is put before or after it. *)
Theorem findIcon_longer_name
        (icons : list IconMeta) (name before after : string) :
  findIcon icons name <> None ->
  findIcon icons (before ++ name ++ after) <> None.
Proof.
  unfold findIcon. intros H.
  destruct (find (icon_matches (toLowerCase name)) icons) as [p|] eqn:E;
    [|contradiction].
  apply find_some in E. destruct E as [Hin Hp].
  apply icon_matches_spec in Hp. destruct Hp as (i & Hi & Hinc).
  destruct (find (icon_matches (toLowerCase (before ++ name ++ after)))
              icons) as [q|] eqn:E'; [discriminate|].
  exfalso.
  pose proof (find_none _ _ E' p Hin) as Hno.
  assert (Hyes : icon_matches (toLowerCase (before ++ name ++ after)) p
                 = true).
  { apply icon_matches_spec. exists i. split; [exact Hi|].
    eapply includes_trans; [exact Hinc|].
    apply includes_split.
    exists (toLowerCase before), (toLowerCase after).
    now rewrite !toLowerCase_app. }
  congruence.
Qed.

Lemma occurs_lower (c : ascii) (s : string) :
  Js.includes (String c "") (toLowerCase s) = true ->
  exists x, c = lower x.
Proof.
  rewrite includes_split. intros (a & b & E). revert a E.
  induction s as [|x s IH]; intros a E; simpl in E.
  - destruct a; discriminate.
  - destruct a as [|y a]; simpl in E.
    + injection E as E _. now exists x.
    + injection E as _ E. now apply (IH a).
Qed.

(** X19.  Issuers are compared as they are written: an issuer that
    contains a capital letter matches no name at all, since every name is
    lower-cased first. *)
Theorem issuer_with_capital_never_matches
        (c : ascii) (i name : string) :
  lower c <> c ->
  Js.includes (String c "") i = true ->
  issuer_matches (toLowerCase name) i = false.
Proof.
  intros Hc Hi. rewrite issuer_matches_includes.
  destruct (Js.includes i (toLowerCase name)) eqn:E; [|reflexivity].
  exfalso. pose proof (includes_trans _ _ _ Hi E) as Hocc.
  apply occurs_lower in Hocc. destruct Hocc as [x ->].
  apply Hc. apply lower_idem.
Qed.

(** X20.  An entry with an empty issuer matches every name: with such an
    entry in the catalog the lookup always returns a file name. *)
Theorem findIcon_empty_issuer
        (icons : list IconMeta) (p : IconMeta) (name : string) :
  In p icons -> In "" (issuer p) ->
  findIcon icons name <> None.
Proof.
  intros Hp Hi. unfold findIcon.
  destruct (find (icon_matches (toLowerCase name)) icons) as [q|] eqn:E;
    [discriminate|].
  exfalso. pose proof (find_none _ _ E p Hp) as Hno.
  assert (Hyes : icon_matches (toLowerCase name) p = true).
  { apply icon_matches_spec. exists "". split; [exact Hi|].
    apply includes_split. exists "", (toLowerCase name). reflexivity. }
  congruence.
Qed.

End IconFacts.

(** ** More runs on the simulated transport *)

Module MoreExamples.

Import Sim.

Lemma connected_session_ok (d : device) : session_ok (connected d).
Proof.
  unfold session_ok; simpl. repeat split; [lia|].
  intros p [= <-]. reflexivity.
Qed.

(** The cancelled sentinel in capitals ends a read all the same. *)
Lemma detection_pattern_any_case_witness :
  exists re,
    commandEndOutputSignRegex executeCommandDefaultOptions
    = PRe re flags_gi /\
    exec_at flags_gi re (Cursor None "CANCELLED BY USER, sorry") <> None.
Proof.
  destruct (detection_pattern_any_case
              (@executeCommandDefaultOptions constants) ">>> " eq_refl)
    as (re & E & _ & H).
  exists re. split; [exact E|].
  apply (H None "CANCELLED BY USER" ", sorry"%string).
  right. right. reflexivity.
Defined.

(** A cancelled command: the result is null, and the response was there. *)
Lemma executeCommand_null_only_if_witness :
  let s := connected (answering [cancelled_reply]) in
  exists r,
    collect 1 example_command
            (assign executeCommandDefaultOptions no_options) s
    = (Ok r, snd (executeCommand 1 example_command no_options s)) /\
    (Js.truthy r = false \/ Js.has TotpCommandCancelled r = true).
Proof.
  intros s.
  apply (executeCommand_null_only_if 1 example_command no_options s).
  reflexivity.
Defined.

(** The device sends nothing back: the echo read times out. *)
Lemma executeCommand_echo_read_fails_witness :
  fst (executeCommand 1 example_command no_options
         (connected (answering [])))
  = Throw Timeout.
Proof.
  erewrite executeCommand_echo_read_fails with (p := port0);
    reflexivity.
Defined.

(** A device that answers every read with [r], a response the loop does
    not accept, keeps the loop running whatever the fuel. *)
Lemma executeCommand_on_repeating (r : option string) :
  Js.truthy r = false \/ Js.has FlipperCliCommandNotFound r = true ->
  forall fuel,
    fst (@executeCommand constants (Repeating.device r) fuel
           example_command no_options (Repeating.connected r))
    = OutOfFuel.
Proof.
  intros Hr fuel.
  destruct (@collect_while_refused constants (Repeating.device r)
              (fun _ => True) example_command
              (assign (@executeCommandDefaultOptions constants) no_options)
              port0) with (fuel := fuel) (s := Repeating.connected r)
    as (tr & w & Hcol & _).
  - intros w _. exists (S w), r, (S w).
    split; [reflexivity|]. split; [reflexivity|]. split; [exact Hr | exact I].
  - reflexivity.
  - exact I.
  - unfold executeCommand, bind. rewrite Hcol. reflexivity.
Qed.

(** Three units of fuel on a device that is still booting, and on one
    that sends no response at all. *)
Lemma executeCommand_retries_forever_witness :
  (let s := Booting.connected in
   exists tr w,
     @executeCommand constants Booting.booting 3 example_command
                     no_options s
     = (OutOfFuel, leave s tr w) /\
     count is_write tr = 3 /\ count is_delay tr = 3 /\ True) /\
  (let s := Repeating.connected None in
   exists tr w,
     @executeCommand constants (Repeating.device None) 3 example_command
                     no_options s
     = (OutOfFuel, leave s tr w) /\
     count is_write tr = 3 /\ count is_delay tr = 3 /\ True).
Proof.
  split; intros s.
  - apply (@executeCommand_retries_forever constants Booting.booting
             (fun _ => True) example_command no_options port0).
    + intros w _.
      exists (S w), (Some "cmd: command not found"%string), (S w).
      split; [reflexivity|]. split; [reflexivity|].
      split; [right; reflexivity | exact I].
    + reflexivity.
    + exact I.
  - apply (@executeCommand_retries_forever constants (Repeating.device None)
             (fun _ => True) example_command no_options port0).
    + intros w _. exists (S w), None, (S w).
      split; [reflexivity|]. split; [reflexivity|].
      split; [left; reflexivity | exact I].
    + reflexivity.
    + exact I.
Defined.

(** C5, as stated, fails when the main read obtains no response, and
    when the response has the cancelled sentinel together with the
    command-not-found sentinel: the loop does not accept such a response,
    waits a second and sends the command again.  On a device that keeps
    answering so, [executeCommand] never resolves, to [null] or to
    anything else. *)
Lemma executeCommand_no_response_retried :
  let run := fun r fuel =>
    fst (@executeCommand constants (Repeating.device r) fuel
           example_command no_options (Repeating.connected r)) in
  run None 5 = OutOfFuel /\
  (forall fuel, run None fuel <> Ok None) /\
  (forall fuel, run (Some ""%string) fuel <> Ok None) /\
  Js.includes TotpCommandCancelled Repeating.both_sentinels = true /\
  (forall fuel, run (Some Repeating.both_sentinels) fuel <> Ok None) /\
  count is_write
    (trace (snd (@executeCommand constants (Repeating.device None) 5
                   example_command no_options (Repeating.connected None))))
  = 5.
Proof.
  intros run. subst run. cbv beta.
  split; [reflexivity|].
  split; [intros fuel; rewrite executeCommand_on_repeating;
          [discriminate | left; reflexivity]|].
  split; [intros fuel; rewrite executeCommand_on_repeating;
          [discriminate | left; reflexivity]|].
  split; [reflexivity|].
  split; [intros fuel; rewrite executeCommand_on_repeating;
          [discriminate | right; reflexivity]|].
  reflexivity.
Qed.


(** A retry and then the listing: all of it on the held port. *)
Lemma executeCommand_keeps_transport_witness :
  let s := connected (answering [not_found_reply; example_input]) in
  let s' := snd (executeCommand 3 example_command no_options s) in
  same_session s s' /\
  exists tr,
    trace s' = trace s ++ tr /\
    Forall (command_traffic port0 example_command
              (assign executeCommandDefaultOptions no_options)) tr.
Proof.
  intros s.
  exact (executeCommand_keeps_transport 3 example_command no_options s
           port0 eq_refl).
Defined.

(** The device shows up at the second poll. *)
Lemma waitForFlipperZeroDevice_resolves_witness :
  let d := {| enumerations := [[other]; [other; flipper]]; opens := [];
              pending := ""; replies := [] |} in
  fst (waitForFlipperZeroDevice 2 (initial d)) = Ok flipper /\
  fst (waitForFlipperZeroDevice 1 (initial d)) = OutOfFuel.
Proof.
  intros d.
  edestruct (waitForFlipperZeroDevice_resolves 1 (@initial simulated d))
    as [Hfound Hnot]; [reflexivity | reflexivity | reflexivity |].
  split; [exact (f_equal fst (Hfound 0)) | exact (f_equal fst Hnot)].
Defined.

(** Plugged in late, then connected in one pass. *)
Lemma getSerialPort_connects_witness :
  let d := {| enumerations := [[other]; [other; flipper]]; opens := [];
              pending := ">>> "; replies := [] |} in
  fst (getSerialPort 3 (initial d)) = Ok port0 /\
  held (snd (getSerialPort 3 (initial d))) = Some port0.
Proof.
  intros d.
  pose proof (getSerialPort_connects 1 (@initial simulated d) _ _ _ _ _ _ _
                eq_refl eq_refl eq_refl eq_refl eq_refl eq_refl 0) as H.
  split; [exact (f_equal fst H) | exact (f_equal (fun x => held (snd x)) H)].
Defined.

(** A first open that fails: the call goes on from the client that is
    left, and connects at the second pass. *)
Lemma getSerialPort_pass_by_pass_witness :
  let s := initial (plugged [false] []) in
  exists s1,
    held s1 = None /\
    getSerialPort 3 s = getSerialPort 2 s1 /\
    trace s1 = [AEmit Connecting; AList; AOpen port0; ADelay 1000] /\
    fst (getSerialPort 2 s1) = Ok port1.
Proof.
  intros s.
  destruct (@getSerialPort_pass_by_pass constants simulated 0
              (@initial simulated (plugged [false] []))
              _ _ _ flipper eq_refl eq_refl eq_refl eq_refl)
    as (_ & _ & Hopen & _).
  destruct (Hopen _ _ eq_refl 1) as (Hh & Heq & _).
  eexists. split; [exact Hh|]. split; [exact Heq|].
  split; reflexivity.
Defined.

(** Asking again for the transport of a connected client. *)
Lemma getSerialPort_again_witness :
  let s := connected (answering []) in
  getSerialPort 0 s = (Ok port0, s).
Proof.
  intros s. apply (getSerialPort_again 1 0 s s port0). reflexivity.
Defined.

(** Waiting again for the device of a connected client. *)
Lemma waitForDevice_again_witness :
  let s := connected (answering []) in
  (exists p, held s = Some p) /\ waitForDevice 0 s = (Ok tt, s).
Proof.
  intros s. apply (waitForDevice_again 1 0 s s). reflexivity.
Defined.

(** Closing a connected client, twice. *)
Lemma close_ends_session_witness :
  let s := connected (answering []) in
  held (snd (close s)) = None /\
  live (snd (close s)) = [] /\
  close (snd (close s)) = (Ok tt, log (AEmit Closed) (snd (close s))).
Proof.
  intros s. apply close_ends_session. apply connected_session_ok.
Defined.

(** The device is unplugged and plugged in again. *)
Lemma channel_closed_then_reconnect_witness :
  let s := connected (plugged [] []) in
  let s1 := perform 0 (ChannelClosed port0) s in
  held s1 = None /\ live s1 = [] /\ trace s1 = trace s /\
  exists tr,
    trace (snd (getSerialPort 2 s1)) = trace s ++ AEmit Connecting :: tr.
Proof.
  intros s.
  apply (channel_closed_then_reconnect 0 1 s port0);
    [apply connected_session_ok | reflexivity].
Defined.

(** A cancelled listing gives no tokens. *)
Lemma listTokens_no_response_witness :
  let s := connected
             (answering ["totp ls" ++ crlf ++ "Cancelled by user" ++ crlf
                         ++ ">>> "])%string in
  fst (listTokens string (fun text => [text]) 1 s) = Ok [].
Proof.
  intros s.
  erewrite (listTokens_no_response string (fun text => [text]) 1 s);
    [reflexivity | reflexivity | right; reflexivity].
Defined.

(** "GitHub, work account" finds the icon of "github". *)
Lemma findIcon_longer_name_witness :
  Icons.findIcon Icons.sample "My GitHub, work account" <> None.
Proof.
  apply (IconFacts.findIcon_longer_name Icons.sample "GitHub" "My "
           ", work account").
  discriminate.
Defined.

(** An issuer spelled "GitHub" in the catalog would never be found. *)
Lemma issuer_with_capital_never_matches_witness :
  Icons.issuer_matches (Icons.toLowerCase "GitHub") "GitHub" = false.
Proof.
  apply (IconFacts.issuer_with_capital_never_matches "G" "GitHub" "GitHub").
  - discriminate.
  - reflexivity.
Defined.

(** A catch-all entry at the end of the catalog. *)
Lemma findIcon_empty_issuer_witness :
  Icons.findIcon
    (Icons.sample
     ++ [{| Icons.issuer := [""%string];
            Icons.filename := "default.png"%string |}])
    "Some Bank" <> None.
Proof.
  apply (IconFacts.findIcon_empty_issuer _
           {| Icons.issuer := [""%string];
              Icons.filename := "default.png"%string |}).
  - apply in_or_app. right. left. reflexivity.
  - left. reflexivity.
Defined.

End MoreExamples.
